(** * PyAutoFit graphical core: [autofit/graphical/utils.py] and
    [autofit/graphical/optimise.py]

    A shallow embedding of the array-flattening utility, the uncertainty
    propagation, the fixed-iteration Newton-Raphson helpers, the
    gradient-based mode finder and the Laplace EP driver, followed by the
    properties of the specification that concern them. *)

From Stdlib Require Import ZArith QArith Lia.
From stdpp Require Import base option list strings gmap pretty.

Local Open Scope nat_scope.
Set Default Proof Using "Type".

(** ** Python exceptions and results *)

Module Py.

Inductive exn : Type :=
| AssertionError
| KeyError
| ValueError
| IndexError
| TypeError
| AttributeError
| UnboundLocalError
| LinAlgError.

Inductive res (T : Type) : Type :=
| Ok (v : T)
| Raise (e : exn).
Arguments Ok {T} v.
Arguments Raise {T} e.

Definition bind {T U : Type} (m : res T) (k : T -> res U) : res U :=
  match m with
  | Ok v => k v
  | Raise e => Raise e
  end.

Definition is_ok {T : Type} (m : res T) : bool :=
  match m with Ok _ => true | Raise _ => false end.

(** A list comprehension whose body may raise: evaluated left to right,
    the first exception escapes. *)
Fixpoint comprehension {T U : Type} (f : T -> res U) (l : list T)
  : res (list U) :=
  match l with
  | [] => Ok []
  | x :: l' =>
      bind (f x) (fun y => bind (comprehension f l') (fun ys => Ok (y :: ys)))
  end.

End Py.
Import Py.

Declare Scope py_scope.
Delimit Scope py_scope with py.
Notation "'let*' x ':=' m 'in' k" := (Py.bind m (fun x => k))
  (at level 10, x pattern, m at level 100, k at level 200) : py_scope.
Local Open Scope py_scope.

(** ** numpy arrays: a shape and the row-major data *)

Section Numpy.
Context {A : Type}.

Record ndarray : Type := NdArray { nd_shape : list nat; nd_data : list A }.

(** What a dictionary of "arrays" holds: a plain Python scalar or an
    [np.ndarray]. *)
Inductive pyval : Type :=
| PyScalar (a : A)
| PyArr (arr : ndarray).

(** [np.prod] of a shape tuple; the empty product is 1. *)
Definition np_prod (s : list nat) : nat := foldr Nat.mul 1 s.

Definition nd_wf (a : ndarray) : Prop :=
  length (nd_data a) = np_prod (nd_shape a).

Definition np_asanyarray (v : pyval) : ndarray :=
  match v with
  | PyScalar a => NdArray [] [a]
  | PyArr arr => arr
  end.

Definition np_shape (v : pyval) : list nat := nd_shape (np_asanyarray v).
Definition np_ravel (v : pyval) : list A := nd_data (np_asanyarray v).

Definition pyval_wf (v : pyval) : Prop := nd_wf (np_asanyarray v).

(** Elementwise [==] of two values of the same shape, all entries equal. *)
Definition np_array_equal (v w : pyval) : Prop :=
  np_shape v = np_shape w /\ np_ravel v = np_ravel w.

(** [np.cumsum]. *)
Fixpoint cumsum_from (acc : nat) (l : list nat) : list nat :=
  match l with
  | [] => []
  | x :: l' => (acc + x) :: cumsum_from (acc + x) l'
  end.
Definition np_cumsum (l : list nat) : list nat := cumsum_from 0 l.

(** [np.concatenate] of 1-D arrays; numpy refuses an empty sequence
    ("need at least one array to concatenate"). *)
Definition np_concatenate (l : list (list A)) : res ndarray :=
  match l with
  | [] => Raise ValueError
  | _ => Ok (NdArray [length (concat l)] (concat l))
  end.

(** [arr.reshape(s)]: the element count must be preserved. *)
Definition nd_reshape (a : ndarray) (s : list nat) : res ndarray :=
  if decide (np_prod s = length (nd_data a))
  then Ok (NdArray s (nd_data a))
  else Raise ValueError.

(** [arr.item()]: only for an array of exactly one element. *)
Definition nd_item (a : ndarray) : res A :=
  match nd_data a with
  | [x] => Ok x
  | _ => Raise ValueError
  end.

(** The [d] consecutive blocks of [m] elements that make up the rows of
    an array whose leading axis has length [d]. *)
Fixpoint chunks (m d : nat) (data : list A) : list (list A) :=
  match d with
  | 0 => []
  | S d' => take m data :: chunks m d' (drop m data)
  end.

(** [arr[(slice(i0, i1),) * n]]: the same slice on each of the first [n]
    axes, the remaining axes kept whole.  Python clips a slice to the
    axis, so out-of-range bounds select fewer rows, never fail. *)
Fixpoint slice_data (n i0 i1 : nat) (shape : list nat) (data : list A)
  : list A :=
  match n, shape with
  | S n', d :: rest =>
      concat (map (slice_data n' i0 i1 rest)
                  (take (i1 - i0) (drop i0 (chunks (np_prod rest) d data))))
  | _, _ => data
  end.

Definition slice_shape (n i0 i1 : nat) (shape : list nat) : list nat :=
  map (fun d => Nat.min i1 d - Nat.min i0 d) (take n shape) ++ drop n shape.

Definition nd_slice_lead (n : nat) (ind : nat * nat) (a : ndarray)
  : res ndarray :=
  if decide (n <= length (nd_shape a))
  then Ok (NdArray (slice_shape n ind.1 ind.2 (nd_shape a))
                   (slice_data n ind.1 ind.2 (nd_shape a) (nd_data a)))
  else Raise IndexError.

(** ** [FlattenArrays] *)

(** The dictionary part is the registration-ordered list of
    [(key, shape)] items; [splits], [inds] and [sizes] are the attributes
    [__init__] derives from it. *)
Record FlattenArrays : Type := {
  fa_items : list (string * list nat);
  splits : list nat;
  inds : list (nat * nat);
  sizes : list (string * nat)
}.

Definition FlattenArrays_init (dict_ : list (string * list nat))
  : FlattenArrays :=
  let splits := np_cumsum (map (fun ks => np_prod ks.2) dict_) in
  {| fa_items := dict_;
     splits := splits;
     inds := zip (0 :: removelast splits) splits;
     sizes := map (fun ks => (ks.1, np_prod ks.2)) dict_ |}.

(** The [size] property, [self.splits[-1]]. *)
Definition fa_size (self : FlattenArrays) : res nat :=
  match last (splits self) with
  | Some n => Ok n
  | None => Raise IndexError
  end.

(** [all(np.shape(arrays_dict[k]) == shape for k, shape in self.items())]:
    stops at the first [False]; a missing key raises [KeyError]. *)
Fixpoint all_shapes_equal (items : list (string * list nat))
    (arrays_dict : gmap string pyval) : res bool :=
  match items with
  | [] => Ok true
  | (k, shape) :: items' =>
      match arrays_dict !! k with
      | None => Raise KeyError
      | Some v =>
          if decide (np_shape v = shape)
          then all_shapes_equal items' arrays_dict
          else Ok false
      end
  end.

Definition ravel_key (arrays_dict : gmap string pyval) (k : string)
  : res (list A) :=
  match arrays_dict !! k with
  | Some v => Ok (np_ravel v)
  | None => Raise KeyError
  end.

Definition flatten (self : FlattenArrays) (arrays_dict : gmap string pyval)
  : res ndarray :=
  let* ok := all_shapes_equal (fa_items self) arrays_dict in
  if ok : bool
  then
    let* parts := comprehension (ravel_key arrays_dict)
                                (map fst (fa_items self)) in
    np_concatenate parts
  else Raise AssertionError.

(** [shape * ndim]: tuple repetition. *)
Definition tuple_repeat (shape : list nat) (ndim : nat) : list nat :=
  concat (replicate ndim shape).

Definition is_nonempty {T : Type} (t : list T) : bool :=
  match t with [] => false | _ => true end.

Definition unflatten_entry (ndim : nat)
    (e : (string * list nat) * list nat * ndarray) : res (string * pyval) :=
  let '((k, shape), arr_shape, arr) := e in
  if is_nonempty shape || is_nonempty arr_shape
  then
    let* r := nd_reshape arr (tuple_repeat shape ndim ++ arr_shape) in
    Ok (k, PyArr r)
  else
    let* x := nd_item arr in
    Ok (k, PyScalar x).

(** The keys of the result are those of the registry, which being
    dictionary keys are pairwise distinct. *)
Definition unflatten (self : FlattenArrays) (arr : pyval)
    (ndim : option nat) : res (gmap string pyval) :=
  let arr := np_asanyarray arr in
  let ndim := default (length (nd_shape arr)) ndim in
  let* arrays := comprehension (fun ind => nd_slice_lead ndim ind arr)
                               (inds self) in
  let arr_shapes := map (fun a => drop ndim (nd_shape a)) arrays in
  let* entries := comprehension (unflatten_entry ndim)
                    (zip (zip (fa_items self) arr_shapes) arrays) in
  Ok (list_to_map entries).

(** *** Vocabulary for statements about [flatten] and [unflatten] *)

(** Offsets [(i0, i1)] of consecutive blocks of the given sizes. *)
Fixpoint offsets_from (acc : nat) (l : list nat) : list (nat * nat) :=
  match l with
  | [] => []
  | x :: l' => (acc, acc + x) :: offsets_from (acc + x) l'
  end.

Definition item_sizes (items : list (string * list nat)) : list nat :=
  map (fun ks => np_prod ks.2) items.

(** The mapping has an entry for every registered key. *)
Definition supplies (X : gmap string pyval)
    (items : list (string * list nat)) : Prop :=
  Forall (fun ks => is_Some (X !! ks.1)) items.

(** Some registered key is supplied with a shape other than the
    registered one. *)
Definition mismatched (X : gmap string pyval)
    (items : list (string * list nat)) : Prop :=
  Exists (fun ks => exists v, X !! ks.1 = Some v /\ np_shape v <> ks.2) items.

(** Every registered key is supplied with a well-formed array of the
    registered shape followed by the batch axes [rest]. *)
Definition respects (rest : list nat) (X : gmap string pyval)
    (items : list (string * list nat)) : Prop :=
  Forall (fun ks => exists v,
            X !! ks.1 = Some v /\ np_shape v = ks.2 ++ rest /\ pyval_wf v)
         items.

Definition lookup_ravel (X : gmap string pyval) (k : string) : list A :=
  match X !! k with
  | Some v => np_ravel v
  | None => []
  end.

(** The ravelled arrays of the mapping, in registration order. *)
Definition flat_data (X : gmap string pyval)
    (items : list (string * list nat)) : list A :=
  concat (map (fun ks => lookup_ravel X ks.1) items).

(** What [unflatten] is expected to hold for a registered item when the
    unflattened array carries the batch axes [rest] after the variable
    axis. *)
Definition unflattened_entry (rest : list nat) (X : gmap string pyval)
    (ks : string * list nat) : string * pyval :=
  (ks.1,
   if is_nonempty ks.2 || is_nonempty rest
   then PyArr (NdArray (ks.2 ++ rest) (lookup_ravel X ks.1))
   else match lookup_ravel X ks.1 with
        | [x] => PyScalar x
        | l => PyArr (NdArray [] l)
        end).

End Numpy.

Arguments ndarray A : clear implicits.
Arguments pyval A : clear implicits.

(** ** Uncertainty propagation

    The entries are kept abstract: [f0], [f1], [fadd] and [fmul] stand for
    the float zero, one, addition and multiplication. *)

Section Propagate.
Context {F : Type} (f0 f1 : F) (fadd fmul : F -> F -> F).

(** Position denoted by a Python slice bound on a tuple of length [n]:
    a negative bound counts from the end, and every bound is clipped. *)
Definition slice_bound (n : nat) (i : Z) : nat :=
  if (i <? 0)%Z then Z.to_nat (Z.max 0 (Z.of_nat n + i))
  else Nat.min (Z.to_nat i) n.

(** [t[:stop]] and [t[start:]]. *)
Definition tuple_upto (t : list nat) (stop : Z) : list nat :=
  take (slice_bound (length t) stop) t.
Definition tuple_from (t : list nat) (start : Z) : list nat :=
  drop (slice_bound (length t) start) t.

(** The row-major data of the [r] by [c] matrix with entries [g i j]. *)
Definition tabulate2 (r c : nat) (g : nat -> nat -> F) : list F :=
  flat_map (fun i => map (g i) (seq 0 c)) (seq 0 r).

Definition mat_entry (cols : nat) (data : list F) (i j : nat) : F :=
  nth (i * cols + j) data f0.

(** Sum accumulated from zero, term after term. *)
Definition fsum (terms : list F) : F := foldl fadd f0 terms.

(** [np.dot] of two 2-D arrays. *)
Definition np_dot (a b : ndarray F) : res (ndarray F) :=
  match nd_shape a, nd_shape b with
  | [n; m], [m'; p] =>
      if decide (m = m')
      then Ok (NdArray [n; p]
                 (tabulate2 n p (fun i j =>
                    fsum (map (fun k => fmul (mat_entry m (nd_data a) i k)
                                             (mat_entry p (nd_data b) k j))
                              (seq 0 m)))))
      else Raise ValueError
  | _, _ => Raise ValueError
  end.

(** [a.T] of a 2-D array. *)
Definition nd_transpose (a : ndarray F) : ndarray F :=
  match nd_shape a with
  | [n; m] =>
      NdArray [m; n] (tabulate2 m n (fun j i => mat_entry m (nd_data a) i j))
  | _ => a
  end.

(** [np.linalg.multi_dot] of three matrices: the cheaper of the two
    bracketings is evaluated. *)
Definition multi_dot3 (a b c : ndarray F) : res (ndarray F) :=
  match nd_shape a, nd_shape c with
  | [a0; a1b0], [b1c0; c1] =>
      let cost1 := a0 * b1c0 * (a1b0 + c1) in
      let cost2 := a1b0 * c1 * (a0 + b1c0) in
      if decide (cost1 < cost2)
      then let* ab := np_dot a b in np_dot ab c
      else let* bc := np_dot b c in np_dot a bc
  | _, _ => Raise ValueError
  end.

(** [np.eye(n)]. *)
Definition np_eye (n : nat) : ndarray F :=
  NdArray [n; n] (tabulate2 n n (fun i j => if i =? j then f1 else f0)).

(** The trailing axes of the Jacobian that [propagate_uncertainty]
    compares with the two halves of the covariance's shape. *)
Definition jac_var_shape (cov_shape jac_shape : list nat) : list nat :=
  let var_ndim := length cov_shape / 2 in
  tuple_from jac_shape (Z.of_nat (length jac_shape) - Z.of_nat var_ndim).

Definition propagate_uncertainty (cov : pyval F) (jac : ndarray F)
  : res (ndarray F) :=
  let cov := np_asanyarray cov in
  let var_ndim := length (nd_shape cov) / 2 in
  let det_ndim := (Z.of_nat (length (nd_shape jac)) - Z.of_nat var_ndim)%Z in
  let det_shape := tuple_upto (nd_shape jac) det_ndim in
  let var_shape := tuple_from (nd_shape jac) det_ndim in
  if decide (var_shape = take var_ndim (nd_shape cov) /\
             take var_ndim (nd_shape cov) = drop var_ndim (nd_shape cov))
  then
    let var_size := np_prod var_shape in
    let det_size := np_prod det_shape in
    let* cov2d := nd_reshape cov [var_size; var_size] in
    let* jac2d := nd_reshape jac [det_size; var_size] in
    let* det_cov2d := multi_dot3 jac2d cov2d (nd_transpose jac2d) in
    nd_reshape det_cov2d (det_shape ++ det_shape)
  else Raise AssertionError.

End Propagate.

(** ** Newton-Raphson helpers

    The float type and the special functions are abstract: [is_neg x] is
    the test [x < 0], [of_Q] reads a decimal literal. *)

Section Special.
Context {F : Type}.
Context (is_neg : F -> bool) (of_Q : Q -> F).
Context (fneg : F -> F) (fadd fsub fmul fdiv fpow fmax : F -> F -> F).
Context (fexp flog digamma trigamma : F -> F).

(** [for _ in range(n): state = body(state)]. *)
Fixpoint for_range {S : Type} (n : nat) (body : S -> S) (state : S) : S :=
  match n with
  | 0 => state
  | S n' => for_range n' body (body state)
  end.

Definition psilog (x : F) : F := fsub (digamma x) (flog x).

Definition grad_psilog (x : F) : F :=
  fsub (trigamma x) (fdiv (of_Q 1) x).

(** The starting guess of [invpsilog], for one element. *)
Definition invpsilog_start (c : F) : F :=
  let A := of_Q 0.38648347 in
  let beta := of_Q 0.89486989 in
  let gamma := of_Q 0.78578843 in
  fdiv (fneg (fsub (of_Q 1)
                (fmul (of_Q 0.5)
                   (fpow (fadd (of_Q 1) (fmul A (fpow (fneg c) beta)))
                         (fneg gamma)))))
       c.

(** One refinement, for one element. *)
Definition invpsilog_refine (c x0 : F) : F :=
  let f0 := fsub (psilog x0) c in
  fsub x0 (fdiv f0 (grad_psilog x0)).

Definition invpsilog (c : pyval F) : res (ndarray F) :=
  let c := np_asanyarray c in
  if negb (forallb is_neg (nd_data c))
  then Raise ValueError
  else
    let x0 := map invpsilog_start (nd_data c) in
    let x0 := for_range 4
                (fun x0 => zip_with (fun x ci => invpsilog_refine ci x)
                                    x0 (nd_data c))
                x0 in
    Ok (NdArray (nd_shape c) x0).

(** *** [inv_beta_suffstats] *)

Inductive warning : Type :=
| RuntimeWarning (message : string).

(** [np.linalg.solve] on one 2 by 2 system [[[m00, m01], [m10, m11]]]
    and right-hand side; it raises [LinAlgError] on a singular matrix. *)
Context (linalg_solve : (F * F) * (F * F) -> F * F -> res (F * F)).

Definition grad_betaln (ab : F * F) : F * F :=
  let psiab := digamma (fadd ab.1 ab.2) in
  (fsub (digamma ab.1) psiab, fsub (digamma ab.2) psiab).

Definition jac_grad_betaln (ab : F * F) : (F * F) * (F * F) :=
  let psi1ab := trigamma (fadd ab.1 ab.2) in
  let fii := (fsub (trigamma ab.1) psi1ab, fsub (trigamma ab.2) psi1ab) in
  let fij := fneg psi1ab in
  ((fii.1, fij), (fij, fii.2)).

Definition beta_start (lnXs : F * F) : F * F :=
  let Gs := (fexp lnXs.1, fexp lnXs.2) in
  let dG := fsub (of_Q 1) (fadd Gs.1 Gs.2) in
  (fmax (of_Q 1) (fdiv (fadd (of_Q 1) (fdiv Gs.1 dG)) (of_Q 2)),
   fmax (of_Q 1) (fdiv (fadd (of_Q 1) (fdiv Gs.2 dG)) (of_Q 2))).

(** One pass of the loop body over every row; a singular system makes
    the whole [solve] call raise. *)
Definition beta_newton_pass (lnXs : list (F * F)) (ab : list (F * F))
  : res (list (F * F)) :=
  comprehension
    (fun row : (F * F) * (F * F) =>
       let '(ab, lnx) := row in
       let f := (fsub (grad_betaln ab).1 lnx.1,
                 fsub (grad_betaln ab).2 lnx.2) in
       let jac := jac_grad_betaln ab in
       let* step := linalg_solve jac (fneg f.1, fneg f.2) in
       Ok (fadd ab.1 step.1, fadd ab.2 step.2))
    (zip ab lnXs).

Fixpoint for_range_res {S : Type} (n : nat) (body : S -> res S) (state : S)
  : res S :=
  match n with
  | 0 => Ok state
  | S n' => let* state' := body state in for_range_res n' body state'
  end.

(** [np.c_[_lnX, _ln1X]]: the two ravelled inputs side by side. *)
Definition np_c_ (x y : list F) : res (list (F * F)) :=
  if decide (length x = length y) then Ok (zip x y) else Raise ValueError.

(** The value of [ab] when the five iterations are done. *)
Definition beta_newton (lnX ln1X : pyval F) : res (list (F * F)) :=
  let* lnXs := np_c_ (np_ravel lnX) (np_ravel ln1X) in
  let ab := map beta_start lnXs in
  for_range_res 5 (beta_newton_pass lnXs) ab.

Definition clamp_message : string :=
  "invalid negative parameters found for inv_beta_suffstats, clampling value to 0.5".

(** [np.clip(ab, 0.5, None)]. *)
Definition np_clip_low (lo : F) (ab : list (F * F)) : list (F * F) :=
  map (fun r => (fmax r.1 lo, fmax r.2 lo)) ab.

(** The function returns the warnings it emitted next to [(a, b)].
    The clipped array is bound to the local name [b], which both
    branches of the final [if] assign again. *)
Definition inv_beta_suffstats (lnX ln1X : pyval F)
  : res (list warning * (pyval F * pyval F)) :=
  let* ab := beta_newton lnX ln1X in
  let '(warnings, b) :=
    if existsb (fun r => is_neg r.1 || is_neg r.2) ab
    then ([RuntimeWarning clamp_message], Some (np_clip_low (of_Q 0.5) ab))
    else ([], None) in
  let shape := np_shape lnX in
  if is_nonempty shape
  then
    let* a := nd_reshape (NdArray [length ab] (map fst ab)) shape in
    let* b := nd_reshape (NdArray [length ab] (map snd ab)) shape in
    Ok (warnings, (PyArr a, PyArr b))
  else
    match ab with
    | r :: _ => Ok (warnings, (PyScalar r.1, PyScalar r.2))
    | [] => Raise IndexError
    end.

End Special.

(** ** [Status] and [OptResult] *)

Record Status : Type := mkStatus { success : bool; messages : list string }.

(** [Status()]: the field defaults. *)
Definition Status_default : Status := mkStatus true [].

Section Optimise.
Context {F : Type}.

(** What [scipy.optimize.minimize] hands back; [res_hess_inv] is the
    dense form of the inverse-Hessian estimate. *)
Record OptimizeResult : Type := {
  res_x : ndarray F;
  res_success : bool;
  res_message : string;
  res_nfev : Z;
  res_nit : Z;
  res_status : Z;
  res_fun : F;
  res_hess_inv : ndarray F
}.

(** The objects that end up in the fields of an [OptResult]; a Python
    [NamedTuple] does not check its annotations. *)
Inductive pyobj : Type :=
| ObjDict (d : gmap string (pyval F))
| ObjFloat (x : F)
| ObjOptimizeResult (r : OptimizeResult)
| ObjStatus (s : Status).

Record OptResult : Type := {
  mode : pyobj;
  hess_inv : pyobj;
  log_norm : pyobj;
  full_hess_inv : pyobj;
  result : pyobj;
  status : pyobj
}.

(** The constructor of the named tuple: positional arguments fill the fields in
    declaration order; only [status] has a default. *)
Definition OptResult_new (args : list pyobj) : res OptResult :=
  match args with
  | [a; b; c; d; e] =>
      Ok {| mode := a; hess_inv := b; log_norm := c; full_hess_inv := d;
            result := e; status := ObjStatus Status_default |}
  | [a; b; c; d; e; f] =>
      Ok {| mode := a; hess_inv := b; log_norm := c; full_hess_inv := d;
            result := e; status := f |}
  | _ => Raise TypeError
  end.

(** Attribute access by name. *)
Definition OptResult_getattr (r : OptResult) (name : string) : res pyobj :=
  if decide (name = "mode") then Ok (mode r)
  else if decide (name = "hess_inv") then Ok (hess_inv r)
  else if decide (name = "log_norm") then Ok (log_norm r)
  else if decide (name = "full_hess_inv") then Ok (full_hess_inv r)
  else if decide (name = "result") then Ok (result r)
  else if decide (name = "status") then Ok (status r)
  else Raise AttributeError.

(** The tuple once the dictionary held by the field [name] has been
    mutated in place into [d]. *)
Definition OptResult_mutated (r : OptResult) (name : string)
    (d : gmap string (pyval F)) : OptResult :=
  if decide (name = "mode") then
    {| mode := ObjDict d; hess_inv := hess_inv r; log_norm := log_norm r;
       full_hess_inv := full_hess_inv r; result := result r;
       status := status r |}
  else if decide (name = "hess_inv") then
    {| mode := mode r; hess_inv := ObjDict d; log_norm := log_norm r;
       full_hess_inv := full_hess_inv r; result := result r;
       status := status r |}
  else r.

(** ** [OptFactor] *)

Context (fneg : F -> F).
(** [self.factor_approx.model_dist[v].sample(1)[0]]: a draw, from the
    state of the random generator to the value and the new state. *)
Context {Rng : Type} (sample : string -> Rng -> pyval F * Rng).
(** [scipy.optimize.minimize(self, x0, ...)]: the objective is [self]
    with the sign in force, the start is [x0]. *)
Context (minimize : Z -> ndarray F -> OptimizeResult).

Record OptFactor : Type := {
  param_shapes : FlattenArrays;
  free_vars : list string;
  fixed_kws : gmap string (pyval F)
}.

Definition OptFactor_init (kwargs : list (string * list nat))
    (fixed_kws : gmap string (pyval F)) : OptFactor :=
  {| param_shapes := FlattenArrays_init kwargs;
     free_vars := map fst kwargs;
     fixed_kws := fixed_kws |}.

(** What a call can change: the caller's [arrays_dict], the attribute
    [self.sign] and the state of the random generator. *)
Record heap : Type := {
  arrays_dict_of : gmap string (pyval F);
  sign_of : Z;
  rng_of : Rng
}.

Definition _minimise (self : OptFactor) (arrays_dict : gmap string (pyval F))
    (sign : Z) : res OptimizeResult :=
  let* x0 := flatten (param_shapes self) arrays_dict in
  Ok (minimize sign x0).

Definition diagnostic (r : OptimizeResult) : string :=
  "optimise.find_factor_mode: " +:+
  "nfev=" +:+ pretty (res_nfev r) +:+ ", nit=" +:+ pretty (res_nit r) +:+
  ", " +:+
  "status=" +:+ pretty (res_status r) +:+ ", message=" +:+ res_message r.

(** The first lines of [_parse_result]: the status that is built from
    the incoming one and the optimiser's report. *)
Definition parse_status (status : option Status) (r : OptimizeResult)
  : Status :=
  let st := match status with None => Status_default | Some s => s end in
  let '(success, messages) := (success st, messages st) in
  let success := res_success r in
  let messages := messages ++ [diagnostic r] in
  mkStatus success messages.

Definition _parse_result (self : OptFactor) (r : OptimizeResult)
    (status : option Status) : res OptResult :=
  let st := parse_status status r in
  let* mode := unflatten (param_shapes self) (PyArr (res_x r)) None in
  let mode := fixed_kws self ∪ mode in
  let* covar := unflatten (param_shapes self) (PyArr (res_hess_inv r)) None in
  OptResult_new [ObjDict mode; ObjDict covar; ObjFloat (fneg (res_fun r));
                 ObjOptimizeResult r; ObjStatus st].

(** [{v: arrays_dict.pop(v, sample(v)) for v in self.free_vars}]: the
    start point built so far, the caller's dictionary after the pops and
    the random state.  The default of [pop] is an argument, so a value is
    drawn for every free variable, present or not. *)
Fixpoint pop_free_vars (vars : list string)
    (p0 arrays_dict : gmap string (pyval F)) (rng : Rng)
  : gmap string (pyval F) * gmap string (pyval F) * Rng :=
  match vars with
  | [] => (p0, arrays_dict, rng)
  | v :: vars' =>
      let '(drawn, rng) := sample v rng in
      let value := default drawn (arrays_dict !! v) in
      pop_free_vars vars' (<[v := value]> p0) (delete v arrays_dict) rng
  end.

Definition maximise (self : OptFactor) (status : option Status) (h : heap)
  : res OptResult * heap :=
  let sign := (-1)%Z in
  let '(p0, arrays_dict, rng) :=
    pop_free_vars (free_vars self) ∅ (arrays_dict_of h) (rng_of h) in
  match _minimise self p0 sign with
  | Raise e =>
      (Raise e,
       {| arrays_dict_of := arrays_dict; sign_of := sign; rng_of := rng |})
  | Ok r =>
      let sign := 1%Z in
      (_parse_result self r status,
       {| arrays_dict_of := arrays_dict; sign_of := sign; rng_of := rng |})
  end.

(** ** [update_det_cov] and [find_factor_mode] *)

Context (f0 : F) (fadd fmul : F -> F -> F).
(** [covars.get(det, 0.) + propagated], with numpy's broadcasting. *)
Context (np_add : pyval F -> ndarray F -> res (pyval F)).
(** [factor(mode)]: the log-value and the deterministic values. *)
Context (factor_call :
           gmap string (pyval F) -> res (F * gmap string (pyval F))).
(** [factor.jacobian(mode, free_vars).deterministic_values.items()]. *)
Context (factor_jacobian :
           gmap string (pyval F) -> list string ->
           res (list ((string * string) * ndarray F))).

Fixpoint accumulate_det_cov (jacobian : list ((string * string) * ndarray F))
    (covars : gmap string (pyval F)) : res (gmap string (pyval F)) :=
  match jacobian with
  | [] => Ok covars
  | ((det, v), jac) :: jacobian' =>
      match covars !! v with
      | None => Raise KeyError
      | Some cov =>
          let* propagated := propagate_uncertainty f0 fadd fmul cov jac in
          let* total := np_add (default (PyScalar f0) (covars !! det))
                               propagated in
          accumulate_det_cov jacobian' (<[det := total]> covars)
      end
  end.

(** The loop of [update_det_cov] run on the dictionary found under the
    attribute [name] of [res], which it mutates. *)
Definition update_det_cov_at (name : string) (res : OptResult)
    (jacobian : list ((string * string) * ndarray F)) : Py.res OptResult :=
  let* covars := OptResult_getattr res name in
  match covars with
  | ObjDict covars =>
      let* covars := accumulate_det_cov jacobian covars in
      Ok (OptResult_mutated res name covars)
  | _ => Raise TypeError
  end.

Definition update_det_cov (res : OptResult)
    (jacobian : list ((string * string) * ndarray F)) : Py.res OptResult :=
  update_det_cov_at "inv_hessian" res jacobian.

Definition find_factor_mode (opt : OptFactor) (return_cov : bool)
    (status : option Status) (h : heap) : res OptResult * heap :=
  let '(r, h) := maximise opt status h in
  (match r with
   | Raise e => Raise e
   | Ok res =>
       if return_cov
       then
         match mode res with
         | ObjDict m =>
             let* value := factor_call m in
             let m := value.2 ∪ m in
             let res := OptResult_mutated res "mode" m in
             let* jacobian := factor_jacobian m (free_vars opt) in
             update_det_cov res jacobian
         | _ => Raise TypeError
         end
       else Ok res
   end, h).

End Optimise.

Arguments OptimizeResult F : clear implicits.
Arguments pyobj F : clear implicits.
Arguments OptResult F : clear implicits.
Arguments OptFactor F : clear implicits.
Arguments heap F Rng : clear implicits.

(** ** [LaplaceOptimiser] *)

Section Laplace.
Context {Approx Factor Delta Kws Rng : Type} `{Countable Factor}.
(** [laplace_factor_approx(model_approx, factor, delta, status)], the
    four positional parameters [step] passes.  The update draws its
    starting point at random: it takes and returns the state of the
    random generator. *)
Context (laplace_factor_approx :
           Approx -> Factor -> Delta -> Kws -> Rng ->
           res (Approx * Status) * Rng).
(** [model_approx.factor_graph.factors]. *)
Context (graph_factors : Approx -> list Factor).

Record LaplaceOptimiser : Type := {
  n_iter : nat;
  delta : Delta;
  opt_kws : Kws
}.

(** A generator: what it yields, in order, until it is exhausted or an
    exception escapes from it, and the random state it leaves. *)
Inductive generator (T : Type) : Type :=
| Exhausted (rng : Rng)
| Yield (x : T) (rest : generator T)
| Escapes (e : exn) (rng : Rng).
Arguments Exhausted {T} rng.
Arguments Yield {T} x rest.
Arguments Escapes {T} e rng.

Fixpoint step_from (self : LaplaceOptimiser) (new_approx : Approx)
    (factors : list Factor) (rng : Rng) : generator (Factor * Approx) :=
  match factors with
  | [] => Exhausted rng
  | factor :: factors' =>
      match laplace_factor_approx new_approx factor (delta self)
                                  (opt_kws self) rng with
      | (Raise e, rng) => Escapes e rng
      | (Ok (new_approx, _), rng) =>
          Yield (factor, new_approx) (step_from self new_approx factors' rng)
      end
  end.

Definition step (self : LaplaceOptimiser) (model_approx : Approx)
    (factors : option (list Factor)) (rng : Rng)
  : generator (Factor * Approx) :=
  let new_approx := model_approx in
  let factors := default (graph_factors model_approx) factors in
  step_from self new_approx factors rng.

(** The variables [run] assigns: the dictionary [self.history] and the
    local [new_approx], unbound until the first yield. *)
Record run_state : Type := {
  history : gmap (nat * Factor) Approx;
  new_approx_of : option Approx
}.

(** The inner [for] of [run] over one generator. *)
Fixpoint consume (i : nat) (g : generator (Factor * Approx))
    (st : run_state) : option exn * run_state * Rng :=
  match g with
  | Exhausted rng => (None, st, rng)
  | Escapes e rng => (Some e, st, rng)
  | Yield (factor, new_approx) rest =>
      consume i rest
        {| history := <[(i, factor) := new_approx]> (history st);
           new_approx_of := Some new_approx |}
  end.

(** The outer [for i in range(self.n_iter)], over the remaining values
    of [i]. *)
Fixpoint run_loop (self : LaplaceOptimiser) (model_approx : Approx)
    (factors : option (list Factor)) (indices : list nat) (st : run_state)
    (rng : Rng) : option exn * run_state * Rng :=
  match indices with
  | [] => (None, st, rng)
  | i :: indices' =>
      match consume i (step self model_approx factors rng) st with
      | (Some e, st', rng') => (Some e, st', rng')
      | (None, st', rng') =>
          run_loop self model_approx factors indices' st' rng'
      end
  end.

(** [return new_approx] at the end of [run]. *)
Definition return_new_approx (outcome : option exn * run_state * Rng)
  : res Approx :=
  match outcome.1.1 with
  | Some e => Raise e
  | None =>
      match new_approx_of outcome.1.2 with
      | Some new_approx => Ok new_approx
      | None => Raise UnboundLocalError
      end
  end.

(** [run]: the value returned (or the exception), [self.history]
    afterwards and the random state, from the history [hist] and the
    random state [rng] before the call. *)
Definition run (self : LaplaceOptimiser) (model_approx : Approx)
    (factors : option (list Factor)) (hist : gmap (nat * Factor) Approx)
    (rng : Rng) : res Approx * gmap (nat * Factor) Approx * Rng :=
  let outcome :=
    run_loop self model_approx factors (seq 0 (n_iter self))
             {| history := hist; new_approx_of := None |} rng in
  (return_new_approx outcome, history outcome.1.2, outcome.2).

(** The behaviour the specification describes for [run]: every sweep
    starts from the approximation the preceding sweep produced. *)
Fixpoint run_chained_loop (self : LaplaceOptimiser) (model_approx : Approx)
    (factors : option (list Factor)) (indices : list nat) (st : run_state)
    (rng : Rng) : option exn * run_state * Rng :=
  match indices with
  | [] => (None, st, rng)
  | i :: indices' =>
      match consume i (step self model_approx factors rng) st with
      | (Some e, st', rng') => (Some e, st', rng')
      | (None, st', rng') =>
          run_chained_loop self
            (default model_approx (new_approx_of st')) factors indices'
            st' rng'
      end
  end.

Definition run_chained (self : LaplaceOptimiser) (model_approx : Approx)
    (factors : option (list Factor)) (hist : gmap (nat * Factor) Approx)
    (rng : Rng) : res Approx * gmap (nat * Factor) Approx * Rng :=
  let outcome :=
    run_chained_loop self model_approx factors (seq 0 (n_iter self))
                     {| history := hist; new_approx_of := None |} rng in
  (return_new_approx outcome, history outcome.1.2, outcome.2).

(** *** Vocabulary for statements about [run] *)

(** The optimiser with another number of sweeps. *)
Definition with_n_iter (self : LaplaceOptimiser) (n : nat)
  : LaplaceOptimiser :=
  {| n_iter := n; delta := delta self; opt_kws := opt_kws self |}.

(** The exception that escapes from a generator, if any. *)
Fixpoint gen_exn {T : Type} (g : generator T) : option exn :=
  match g with
  | Exhausted _ => None
  | Escapes e _ => Some e
  | Yield _ rest => gen_exn rest
  end.

(** The approximation of the last pair a generator yields, [init] when
    it yields nothing. *)
Fixpoint gen_last (g : generator (Factor * Approx)) (init : option Approx)
  : option Approx :=
  match g with
  | Exhausted _ | Escapes _ _ => init
  | Yield (_, new_approx) rest => gen_last rest (Some new_approx)
  end.

(** The random state a generator leaves behind. *)
Fixpoint gen_rng {T : Type} (g : generator T) : Rng :=
  match g with
  | Exhausted rng | Escapes _ rng => rng
  | Yield _ rest => gen_rng rest
  end.

End Laplace.

Arguments Exhausted {Rng T} rng.
Arguments Yield {Rng T} x rest.
Arguments Escapes {Rng T} e rng.
Arguments generator Rng T : clear implicits.
Arguments LaplaceOptimiser Delta Kws : clear implicits.

(** ** Concrete instances

    Small inputs over integer entries on which the definitions above are
    evaluated further down. *)

Module Demo.

(** A registry with [a] of shape [(1, 2)] and the scalar [b]. *)
Definition items : list (string * list nat) :=
  [("a", [1; 2]); ("b", [])]%string.

Definition X : gmap string (pyval Z) :=
  <["a" := PyArr (NdArray [1; 2] [0; 1]%Z)]>
    (<["b" := PyScalar 7%Z]> ∅).

(** The same variables carrying a trailing batch axis of length 2. *)
Definition Y : gmap string (pyval Z) :=
  <["a" := PyArr (NdArray [1; 2; 2] [0; 10; 1; 11]%Z)]>
    (<["b" := PyArr (NdArray [2] [7; 17]%Z)]> ∅).

(** A mapping without [a], whose entry for the scalar [b] is a vector. *)
Definition only_b : gmap string (pyval Z) :=
  <["b" := PyArr (NdArray [1] [7%Z])]> ∅.

(** One variable [a] of shape [(2,)]. *)
Definition vector_items : list (string * list nat) := [("a", [2])]%string.

(** A 2 by 2 covariance and a Jacobian whose trailing axis has length 3. *)
Definition cov : list Z := [2; 1; 1; 3]%Z.
Definition bad_jac : ndarray Z := NdArray [3] [1; 2; 3]%Z.

(** Stand-ins for the float operations, over the integers. *)
Definition is_neg (x : Z) : bool := (x <? 0)%Z.
Definition of_Q (q : Q) : Z := (Qnum q / Zpos (Qden q))%Z.
Definition fpow (x y : Z) : Z := x.
Definition special (x : Z) : Z := x.
Definition constant_one (x : Z) : Z := 1%Z.
Definition solve_down (m : (Z * Z) * (Z * Z)) (rhs : Z * Z)
  : res (Z * Z) := Ok ((-1)%Z, (-1)%Z).

(** An optimiser over the scalar variable [x], a report of
    non-convergence, and a caller's dictionary with an entry for [x]
    and an unrelated one. *)
Definition opt : OptFactor Z := OptFactor_init [("x", [])]%string ∅.

(** The random state is a counter of the draws made so far. *)
Definition sample (v : string) (rng : nat) : pyval Z * nat :=
  (PyScalar (Z.of_nat rng), S rng).

Definition report (ok : bool) (x0 : ndarray Z) : OptimizeResult Z :=
  {| res_x := x0;
     res_success := ok;
     res_message := "ABNORMAL_TERMINATION_IN_LNSRCH";
     res_nfev := 21;
     res_nit := 0;
     res_status := 2;
     res_fun := 5%Z;
     res_hess_inv := NdArray [1; 1] [1%Z] |}.

Definition minimize (sign : Z) (x0 : ndarray Z) : OptimizeResult Z :=
  report false x0.

Definition caller_heap : heap Z nat :=
  {| arrays_dict_of :=
       <["x" := PyScalar 3%Z]> (<["other" := PyScalar 5%Z]> ∅);
     sign_of := 1;
     rng_of := 0 |}.

(** A failed status handed to a step that then succeeds. *)
Definition failed : Status := mkStatus false ["earlier step failed"]%string.

(** A Laplace step that adds to the approximation the number of the
    draw it makes, and an optimiser doing two sweeps. *)
Definition laplace (m : nat) (factor : string) (delta kws : unit)
    (rng : nat) : res (nat * Status) * nat :=
  (Ok (m + S rng, Status_default), S rng).
Definition graph (m : nat) : list string := ["f"; "g"]%string.
Definition two_sweeps : LaplaceOptimiser unit unit :=
  {| n_iter := 2; delta := tt; opt_kws := tt |}.

End Demo.

(** ** More of [utils.py]: [flatten2d], [from_arrays], [prod] *)

Section NumpyMore.
Context {A : Type} (f0 : A).

(** The rows of [scipy.linalg.block_diag]: the rows of each square block
    [(n, data)], padded with zeros to the width [N], the block starting
    at column [off]. *)
Fixpoint block_diag_rows (N off : nat) (blocks : list (nat * list A))
  : list (list A) :=
  match blocks with
  | [] => []
  | (n, data) :: blocks' =>
      map (fun row => replicate off f0 ++ row ++ replicate (N - off - n) f0)
          (chunks n n data)
      ++ block_diag_rows N (off + n) blocks'
  end.

(** [block_diag] of square blocks; without any block scipy returns the
    empty array of shape [(1, 0)]. *)
Definition np_block_diag (blocks : list (nat * list A)) : ndarray A :=
  match blocks with
  | [] => NdArray [1; 0] []
  | _ =>
      let N := sum_list (map fst blocks) in
      NdArray [N; N] (concat (block_diag_rows N 0 blocks))
  end.

(** [np.reshape(values[k], (n, n))] for one item of [self.sizes]. *)
Definition square_block (values : gmap string (pyval A)) (kn : string * nat)
  : res (nat * list A) :=
  match values !! kn.1 with
  | None => Raise KeyError
  | Some v =>
      let* r := nd_reshape (np_asanyarray v) [kn.2; kn.2] in
      Ok (kn.2, nd_data r)
  end.

Definition flatten2d (self : FlattenArrays) (values : gmap string (pyval A))
  : res (ndarray A) :=
  let* ok := all_shapes_equal
               (map (fun ks => (ks.1, tuple_repeat ks.2 2)) (fa_items self))
               values in
  if ok : bool
  then
    let* blocks := comprehension (square_block values) (sizes self) in
    Ok (np_block_diag blocks)
  else Raise AssertionError.

(** [unflatten2d = unflatten]. *)
Definition unflatten2d (self : FlattenArrays) (arr : pyval A)
    (ndim : option nat) : res (gmap string (pyval A)) :=
  unflatten self arr ndim.

(** Binding of the keyword arguments, when the class is called with
    keywords only, to the one parameter [dict_] of [__init__]: any other keyword, or none, is a
    [TypeError]. *)
Definition bind_dict_ {T : Type} (kwargs : list (string * T)) : res T :=
  match kwargs with
  | [(name, v)] =>
      if decide (name = "dict_"%string) then Ok v else Raise TypeError
  | _ => Raise TypeError
  end.

(** [self.update(dict_)] when [dict_] is a tuple of integers: the
    elements of the sequence are not key-value pairs, so only the empty
    tuple is accepted, and it adds nothing. *)
Definition dict_update_tuple (dict_ : list nat)
  : res (list (string * list nat)) :=
  match dict_ with
  | [] => Ok []
  | _ => Raise TypeError
  end.

(** [FlattenArrays.from_arrays]: the class is called with the keywords
    [{k: np.shape(arr) for k, arr in arrays.items()}]. *)
Definition from_arrays (arrays : list (string * pyval A))
  : res FlattenArrays :=
  let* dict_ := bind_dict_ (map (fun ka => (ka.1, np_shape ka.2)) arrays) in
  let* items := dict_update_tuple dict_ in
  Ok (FlattenArrays_init items).

(** [functools.reduce(function, iterable[, initial])]. *)
Definition functools_reduce {M : Type} (function : M -> M -> M)
    (iterable : list M) (initial : option M) : res M :=
  match initial, iterable with
  | Some a, _ => Ok (foldl function a iterable)
  | None, x :: iterable' => Ok (foldl function x iterable')
  | None, [] => Raise TypeError
  end.

(** [prod]: [reduce(mul, iterable)] followed by the optional arguments;
    [reduce] takes at most one initial value. *)
Definition prod {M : Type} (mul : M -> M -> M) (iterable : list M)
    (arg : list M) : res M :=
  match arg with
  | [] => functools_reduce mul iterable None
  | [a] => functools_reduce mul iterable (Some a)
  | _ => Raise TypeError
  end.

(** *** Vocabulary for statements about [flatten2d] *)

(** Every registered key is supplied with a well-formed array whose
    shape is the registered shape twice over. *)
Definition respects2d (values : gmap string (pyval A))
    (items : list (string * list nat)) : Prop :=
  Forall (fun ks => exists v,
            values !! ks.1 = Some v /\ np_shape v = ks.2 ++ ks.2 /\
            pyval_wf v)
         items.

(** What [unflatten] is expected to hold for a registered item when it
    is given a square matrix made of one block per item. *)
Definition unflattened_entry2d (values : gmap string (pyval A))
    (ks : string * list nat) : string * pyval A :=
  (ks.1,
   if is_nonempty ks.2
   then PyArr (NdArray (tuple_repeat ks.2 2 ++ [])
                       (lookup_ravel values ks.1))
   else match lookup_ravel values ks.1 with
        | [x] => PyScalar x
        | l => PyArr (NdArray [] l)
        end).

(** The entry [(i, j)] of a 2-D array, [None] out of range. *)
Definition entry2d (a : ndarray A) (i j : nat) : option A :=
  match nd_shape a with
  | [r; c] => if decide (i < r /\ j < c) then nd_data a !! (i * c + j) else None
  | _ => None
  end.

End NumpyMore.

(** ** More concrete instances *)

Module DemoMore.

(** The vector [a] of shape [(2,)] and the scalar [b], with a 2 by 2
    block for [a] and a number for [b]. *)
Definition items : list (string * list nat) :=
  [("a", [2]); ("b", [])]%string.

Definition blocks : gmap string (pyval Z) :=
  <["a" := PyArr (NdArray [2; 2] [1; 2; 3; 4]%Z)]>
    (<["b" := PyScalar 9%Z]> ∅).

Definition vectors : gmap string (pyval Z) :=
  <["a" := PyArr (NdArray [2] [1; 2]%Z)]>
    (<["b" := PyScalar 9%Z]> ∅).

(** The same mapping with one more entry, under a key not registered. *)
Definition vectors_and_more : gmap string (pyval Z) :=
  <["c" := PyScalar 0%Z]> vectors.

(** A mapping that lacks [b]. *)
Definition only_a : gmap string (pyval Z) :=
  <["a" := PyArr (NdArray [2] [1; 2]%Z)]> ∅.

End DemoMore.

(** ** More of [optimise.py]: the bounds, [from_approx],
    [get_random_start], [minimise], [laplace_factor_approx] *)

Section OptimiseMore.
Context {F B : Type}.

(** What [__init__] leaves in [self.bounds]: the value of [bounds]
    itself when it is falsy ([None] or an empty dictionary), else the
    flat list. *)
Inductive bounds_attr : Type :=
| BoundsNone
| BoundsDict (d : gmap string (list B))
| BoundsList (l : list B).

(** [[b for k, s in kwargs.items() for bound in bounds[k]
       for b in repeat(bound, np.prod(s, dtype=int))]]. *)
Definition OptFactor_bounds (kwargs : list (string * list nat))
    (bounds : option (gmap string (list B))) : res bounds_attr :=
  match bounds with
  | None => Ok BoundsNone
  | Some d =>
      if decide (d = ∅) then Ok (BoundsDict d)
      else
        let* per_key :=
          comprehension
            (fun ks : string * list nat =>
               match d !! ks.1 with
               | None => Raise KeyError
               | Some support =>
                   Ok (concat (map (replicate (np_prod ks.2)) support))
               end)
            kwargs in
        Ok (BoundsList (concat per_key))
  end.

(** *** [from_approx] *)

(** The distributions [factor_approx.model_dist[v]] and what the code
    reads from one: whether it is a [FixedMessage], and its attributes
    [mean], [shape] and [_support]. *)
Context {Dist : Type} (model_dist : string -> Dist).
Context (isinstance_FixedMessage : Dist -> bool).
Context (dist_mean : Dist -> pyval F) (dist_shape : Dist -> list nat).
Context (dist_support : Dist -> list B).

(** [d[k] = v] on a dictionary, which keeps insertion order: a key
    already there keeps its place. *)
Fixpoint dict_setitem {T : Type} (k : string) (v : T)
    (d : list (string * T)) : list (string * T) :=
  match d with
  | [] => [(k, v)]
  | (k', v') :: d' =>
      if decide (k' = k) then (k, v) :: d' else (k', v') :: dict_setitem k v d'
  end.

(** The loop over [factor_approx.factor.variables], called with no
    extra keyword: [kwargs] starts empty. *)
Fixpoint from_approx_loop (variables : list string)
    (kwargs : list (string * list nat)) (fixed_kws : gmap string (pyval F))
    (bounds : gmap string (list B))
  : list (string * list nat) * gmap string (pyval F) * gmap string (list B) :=
  match variables with
  | [] => (kwargs, fixed_kws, bounds)
  | v :: variables' =>
      let dist := model_dist v in
      if isinstance_FixedMessage dist
      then from_approx_loop variables' kwargs
             (<[v := dist_mean dist]> fixed_kws) bounds
      else from_approx_loop variables'
             (dict_setitem v (dist_shape dist) kwargs) fixed_kws
             (<[v := dist_support dist]> bounds)
  end.

(** The optimiser that is built, its attribute [bounds] and its
    attribute [sign]. *)
Definition from_approx (variables : list string)
  : res (OptFactor F * bounds_attr * Z) :=
  let '(kwargs, fixed_kws, bounds) := from_approx_loop variables [] ∅ ∅ in
  let* b := OptFactor_bounds kwargs (Some bounds) in
  Ok (OptFactor_init kwargs fixed_kws, b, (-1)%Z).

(** *** [get_random_start] and [minimise] *)

Context {Rng : Type} (sample : string -> Rng -> pyval F * Rng).
Context (fneg : F -> F) (minimize : Z -> ndarray F -> OptimizeResult F).

Fixpoint get_random_start_loop (vars : list string)
    (p0 arrays_dict : gmap string (pyval F)) (rng : Rng)
  : gmap string (pyval F) * Rng :=
  match vars with
  | [] => (p0, rng)
  | v :: vars' =>
      match arrays_dict !! v with
      | Some x => get_random_start_loop vars' (<[v := x]> p0) arrays_dict rng
      | None =>
          let '(drawn, rng) := sample v rng in
          get_random_start_loop vars' (<[v := drawn]> p0) arrays_dict rng
      end
  end.

Definition get_random_start (self : OptFactor F)
    (arrays_dict : gmap string (pyval F)) (rng : Rng)
  : gmap string (pyval F) * Rng :=
  get_random_start_loop (free_vars self) ∅ arrays_dict rng.


(** *** Vocabulary for statements about the optimiser's report *)


(** *** Vocabulary for statements about the random state *)

(** The random state after one draw for each of the variables, in
    order. *)
Definition rng_after_draws (vars : list string) (rng : Rng) : Rng :=
  foldl (fun rng v => (sample v rng).2) rng vars.

End OptimiseMore.

Arguments bounds_attr B : clear implicits.
Arguments BoundsNone {B}.
Arguments BoundsDict {B} d.
Arguments BoundsList {B} l.

(** *** [laplace_factor_approx] *)

Section LaplaceSource.
Context {F B Dist Rng : Type}.
Context {Approx Factor FactorApprox ModelDist Projection Delta Kws : Type}.
Context (fneg : F -> F) (f0 : F) (fadd fmul : F -> F -> F).
Context (np_add : pyval F -> ndarray F -> res (pyval F)).
(** [model_approx.factor_approximation(factor)]. *)
Context (factor_approximation : Approx -> Factor -> res FactorApprox).
(** What the optimiser reads from the factor approximation: the
    variables of its factor, their distributions, the optimisation
    routine run on it, the factor and its Jacobian. *)
Context (factor_variables : FactorApprox -> list string).
Context (model_dist : FactorApprox -> string -> Dist).
Context (isinstance_FixedMessage : Dist -> bool).
Context (dist_mean : Dist -> pyval F) (dist_shape : Dist -> list nat).
Context (dist_support : Dist -> list B).
Context (sample : FactorApprox -> string -> Rng -> pyval F * Rng).
Context (minimize : FactorApprox -> Z -> ndarray F -> OptimizeResult F).
Context (factor_call :
           FactorApprox -> gmap string (pyval F) ->
           res (F * gmap string (pyval F))).
Context (factor_jacobian :
           FactorApprox -> gmap string (pyval F) -> list string ->
           res (list ((string * string) * ndarray F))).
(** [factor_approx.model_dist.project_mode(res)],
    [factor_approx.project(model_dist, delta=delta, status=res.status)]
    and [model_approx.project(projection, status=status)]. *)
Context (project_mode : FactorApprox -> OptResult F -> res ModelDist).
Context (project :
           FactorApprox -> ModelDist -> Delta -> pyobj F ->
           res (Projection * Status)).
Context (approx_project :
           Approx -> Projection -> Status -> res (Approx * Status)).

(** The call [step] makes: four positional arguments, so [opt_kws] is
    left at its default and [find_factor_mode] gets no keyword beyond
    [return_cov]; the parameter [status] is not read.  [find_factor_mode]
    starts by building the optimiser with [from_approx] and calls
    [maximise] with its default [arrays_dict]. *)
Definition laplace_factor_approx (model_approx : Approx) (factor : Factor)
    (delta : Delta) (_status : Kws) (rng : Rng)
  : res (Approx * Status) * Rng :=
  match factor_approximation model_approx factor with
  | Raise e => (Raise e, rng)
  | Ok factor_approx =>
      match from_approx (model_dist factor_approx) isinstance_FixedMessage
                        dist_mean dist_shape dist_support
                        (factor_variables factor_approx) with
      | Raise e => (Raise e, rng)
      | Ok (opt, _, sign) =>
          let '(r, h) :=
            find_factor_mode fneg (sample factor_approx)
              (minimize factor_approx) f0 fadd fmul np_add
              (factor_call factor_approx) (factor_jacobian factor_approx)
              opt true None
              {| arrays_dict_of := ∅; sign_of := sign; rng_of := rng |} in
          (let* res := r in
           let* model_dist := project_mode factor_approx res in
           let* projected := project factor_approx model_dist delta
                                     (status res) in
           approx_project model_approx projected.1 projected.2,
           rng_of h)
      end
  end.

End LaplaceSource.

(** ** Concrete instances for the optimiser *)

Module DemoOpt.
Local Open Scope string_scope.

(** Two free variables, the vector [a] and the scalar [b], each
    with one pair of bounds. *)
Definition kwargs : list (string * list nat) := [("a", [2]); ("b", [])].

Definition bounds : gmap string (list (Z * Z)) :=
  <["a" := [(0, 5)%Z]]> (<["b" := [(-1, 1)%Z]]> ∅).

Definition opt : OptFactor Z := OptFactor_init kwargs ∅.

(** The distributions of a factor over [a], [b] and the fixed [c]:
    [Some] holds the mean of a fixed message, [None] stands for a
    free one. *)
Definition model_dist (v : string) : option Z :=
  if decide (v = "c") then Some 7%Z else None.
Definition is_fixed (d : option Z) : bool :=
  match d with Some _ => true | None => false end.
Definition mean (d : option Z) : pyval Z := PyScalar (default 0%Z d).
Definition shape (d : option Z) : list nat := [].
Definition support (d : option Z) : list (Z * Z) := [(0, 1)%Z].

(** A supplied start for both free variables, with one more entry. *)
Definition start : gmap string (pyval Z) :=
  <["a" := PyArr (NdArray [2] [1; 2]%Z)]>
    (<["b" := PyScalar 9%Z]> (<["z" := PyScalar 0%Z]> ∅)).


(** An optimiser that returns its start and the identity matrix. *)
Definition minimize (sign : Z) (x0 : ndarray Z) : OptimizeResult Z :=
  {| res_x := x0; res_success := true; res_message := "CONVERGED";
     res_nfev := 3%Z; res_nit := 1%Z; res_status := 0%Z; res_fun := 5%Z;
     res_hess_inv := NdArray [3; 3] [1; 0; 0; 0; 1; 0; 0; 0; 1]%Z |}.


(** The bound of each free variable. *)
Definition bound_of (k : string) : Z * Z :=
  if decide (k = "a") then (0, 5)%Z else (-1, 1)%Z.

(** A linear solver whose solution is the zero step. *)
Definition solve_still (m : (Z * Z) * (Z * Z)) (rhs : Z * Z)
  : res (Z * Z) := Ok (0%Z, 0%Z).

(** A covariance of odd rank, and a Jacobian of one deterministic
    value with respect to a vector of two. *)
Definition vector_cov : pyval Z := PyArr (NdArray [2] [1; 2]%Z).
Definition jac : ndarray Z := NdArray [1; 2] [1; 2]%Z.

End DemoOpt.

(** ** Facts about the array primitives *)

Section NumpyFacts.
Context {A : Type}.
Implicit Types (data : list A) (s rest : list nat).

Lemma np_prod_app s rest : np_prod (s ++ rest) = np_prod s * np_prod rest.
Proof.
  induction s as [|d s IH]; simpl; [lia|]. rewrite IH. lia.
Qed.

Lemma comprehension_map {T U : Type} (f : T -> res U) (g : T -> U) l :
  (forall x, x ∈ l -> f x = Ok (g x)) ->
  comprehension f l = Ok (map g l).
Proof.
  induction l as [|x l IH]; intros Hf; simpl; [done|].
  rewrite (Hf x) by apply list_elem_of_here. simpl.
  rewrite IH; [done|]. intros y Hy. by apply Hf, list_elem_of_further.
Qed.

Lemma comprehension_map_map {S T U : Type}
    (f : T -> res U) (h : S -> T) (g : S -> U) (l : list S) :
  (forall x, x ∈ l -> f (h x) = Ok (g x)) ->
  comprehension f (map h l) = Ok (map g l).
Proof.
  induction l as [|x l IH]; intros Hf; simpl; [done|].
  rewrite (Hf x) by apply list_elem_of_here. simpl.
  rewrite IH; [done|]. intros y Hy. by apply Hf, list_elem_of_further.
Qed.

Lemma concat_chunks m d data : concat (chunks m d data) = take (d * m) data.
Proof.
  revert data. induction d as [|d IH]; intros data; simpl; [done|].
  rewrite IH. apply take_take_drop.
Qed.

Lemma drop_chunks m d i data :
  drop i (chunks m d data) = chunks m (d - i) (drop (i * m) data).
Proof.
  revert d data. induction i as [|i IH]; intros d data; simpl.
  - by rewrite Nat.sub_0_r.
  - destruct d as [|d]; simpl; [done|].
    by rewrite IH, drop_drop.
Qed.

Lemma take_chunks m d k data :
  take k (chunks m d data) = chunks m (Nat.min k d) data.
Proof.
  revert d data. induction k as [|k IH]; intros d data; simpl; [done|].
  destruct d as [|d]; simpl; [done|]. by rewrite IH.
Qed.

(** One leading slice of a row-major array is a contiguous block. *)
Lemma slice_data_1 i0 i1 d rest data :
  slice_data 1 i0 i1 (d :: rest) data =
  take (Nat.min (i1 - i0) (d - i0) * np_prod rest)
       (drop (i0 * np_prod rest) data).
Proof.
  simpl. rewrite map_id, drop_chunks, take_chunks. apply concat_chunks.
Qed.

End NumpyFacts.

(** ** [FlattenArrays]: the shape check and the round trip *)

Section FlattenFacts.
Context {A : Type}.
Implicit Types (items : list (string * list nat)).
Implicit Types (X : gmap string (pyval A)) (rest : list nat).

Lemma cumsum_from_length acc l : length (cumsum_from acc l) = length l.
Proof. revert acc. induction l; intros; simpl; auto. Qed.

Lemma inds_offsets acc l :
  zip (acc :: removelast (cumsum_from acc l)) (cumsum_from acc l) =
  offsets_from acc l.
Proof.
  revert acc. induction l as [|x l IH]; intros acc; [done|].
  destruct l as [|y l]; [done|].
  specialize (IH (acc + x)).
  change (cumsum_from acc (x :: y :: l))
    with ((acc + x) :: cumsum_from (acc + x) (y :: l)).
  change (removelast ((acc + x) :: cumsum_from (acc + x) (y :: l)))
    with ((acc + x) :: removelast (cumsum_from (acc + x) (y :: l))).
  simpl zip at 1. simpl offsets_from at 1. f_equal. exact IH.
Qed.

Lemma inds_init items :
  inds (FlattenArrays_init items) = offsets_from 0 (item_sizes items).
Proof. apply inds_offsets. Qed.

Lemma all_shapes_equal_respects items X :
  respects [] X items -> all_shapes_equal items X = Ok true.
Proof.
  induction 1 as [|[k s] items (v & Hk & Hs & _) _ IH]; simpl in *; [done|].
  rewrite Hk, app_nil_r in *. by rewrite decide_True.
Qed.

Lemma all_shapes_equal_mismatch items X :
  supplies X items -> mismatched X items ->
  all_shapes_equal items X = Ok false.
Proof.
  intros Hsup. induction Hsup as [|[k s] items [v Hk] _ IH];
    intros Hex; simpl in *; [by apply Exists_nil in Hex|].
  rewrite Hk. case_decide as Hs; [|done].
  apply IH. apply Exists_cons in Hex as [(w & Hw & Hne)|]; [|done].
  simpl in *. congruence.
Qed.

Lemma ravel_keys_respects rest items X :
  respects rest X items ->
  comprehension (ravel_key X) (map fst items) =
  Ok (map (fun ks => lookup_ravel X ks.1) items).
Proof.
  intros H. rewrite (comprehension_map _ (lookup_ravel X)), map_map; [done|].
  intros k Hk. apply list_elem_of_fmap in Hk as ([k' s] & -> & Hin).
  unfold respects in H. rewrite Forall_forall in H. destruct (H _ Hin) as (v & Hv & _).
  unfold ravel_key, lookup_ravel. simpl in *. by rewrite Hv.
Qed.

Lemma lookup_ravel_length rest X items k s :
  respects rest X items -> (k, s) ∈ items ->
  length (lookup_ravel X k) = np_prod s * np_prod rest.
Proof.
  intros H Hin. unfold respects in H. rewrite Forall_forall in H.
  destruct (H _ Hin) as (v & Hv & Hs & Hwf). simpl in *.
  unfold lookup_ravel. rewrite Hv. unfold pyval_wf, nd_wf in Hwf.
  unfold np_ravel. unfold np_shape in Hs.
  by rewrite Hwf, Hs, np_prod_app.
Qed.

Lemma flat_data_length rest X items :
  respects rest X items ->
  length (flat_data X items) = sum_list (item_sizes items) * np_prod rest.
Proof.
  intros H. unfold flat_data, item_sizes.
  induction H as [|[k s] items (v & Hv & Hs & Hwf) _ IH]; simpl in *; [done|].
  rewrite length_app, IH. unfold lookup_ravel. rewrite Hv.
  unfold pyval_wf, nd_wf in Hwf. unfold np_ravel. unfold np_shape in Hs.
  rewrite Hwf, Hs, np_prod_app. lia.
Qed.

Lemma slices_blocks rest d data (part : string * list nat -> list A) items acc :
  (forall ks, ks ∈ items -> length (part ks) = np_prod ks.2 * np_prod rest) ->
  drop (acc * np_prod rest) data = concat (map part items) ->
  acc + sum_list (item_sizes items) <= d ->
  comprehension (fun ind => nd_slice_lead 1 ind (NdArray (d :: rest) data))
                (offsets_from acc (item_sizes items)) =
  Ok (map (fun ks => NdArray (np_prod ks.2 :: rest) (part ks)) items).
Proof.
  revert acc. induction items as [|[k s] items IH]; intros acc Hlen Hdrop Hd;
    [done|].
  simpl in Hd.
  change (item_sizes ((k, s) :: items)) with (np_prod s :: item_sizes items).
  cbn [offsets_from comprehension].
  unfold nd_slice_lead at 1. rewrite decide_True by (simpl; lia).
  cbn [nd_shape nd_data fst snd Py.bind]. rewrite slice_data_1, Hdrop.
  simpl map at 1. simpl concat.
  rewrite take_app_length'; cycle 1.
  { rewrite (Hlen (k, s)) by apply list_elem_of_here. simpl. f_equal. lia. }
  rewrite (IH (acc + np_prod s)); cycle 1.
  - intros ks Hks. by apply Hlen, list_elem_of_further.
  - rewrite Nat.mul_add_distr_r, <- drop_drop, Hdrop.
    simpl. rewrite drop_app_length'; [done|].
    by rewrite (Hlen (k, s)) by apply list_elem_of_here.
  - lia.
  - simpl. do 3 f_equal. unfold slice_shape. simpl. f_equal. lia.
Qed.

Lemma zip_slices {T U V : Type} (f : U -> V) (g : T -> U) (l : list T) :
  zip (zip l (map f (map g l))) (map g l) =
  map (fun x => (x, f (g x), g x)) l.
Proof. induction l; simpl; congruence. Qed.

Lemma unflatten_entry_block rest X items k s :
  respects rest X items -> (k, s) ∈ items ->
  unflatten_entry 1
    ((k, s), rest, NdArray (np_prod s :: rest) (lookup_ravel X k)) =
  Ok (unflattened_entry rest X (k, s)).
Proof.
  intros H Hin. pose proof (lookup_ravel_length _ _ _ _ _ H Hin) as Hlen.
  unfold unflatten_entry, unflattened_entry. cbn [fst snd].
  destruct (is_nonempty s || is_nonempty rest) eqn:Hne.
  - unfold nd_reshape, tuple_repeat. cbn [nd_data replicate concat].
    rewrite app_nil_r. rewrite decide_True; [done|].
    by rewrite np_prod_app.
  - apply orb_false_elim in Hne as [Hs Hr].
    destruct s; [|done]. destruct rest; [|done]. simpl in Hlen.
    unfold nd_item. cbn [nd_data].
    destruct (lookup_ravel X k) as [|x [|y l]]; simpl in *; done || lia.
Qed.

(** Unflattening, along the leading axis, the array whose rows are the
    ravelled arrays of [X] gives back the arrays of [X]. *)
Lemma unflatten_blocks rest X items :
  respects rest X items ->
  unflatten (FlattenArrays_init items)
    (PyArr (NdArray (sum_list (item_sizes items) :: rest) (flat_data X items)))
    (Some 1) =
  Ok (list_to_map (map (unflattened_entry rest X) items)).
Proof.
  intros H. unfold unflatten. cbn [np_asanyarray default].
  rewrite inds_init.
  rewrite (slices_blocks rest _ _ (fun ks => lookup_ravel X ks.1) items 0).
  - cbn [Py.bind]. rewrite zip_slices. change (id 1) with 1.
    rewrite (comprehension_map_map _ _ (unflattened_entry rest X)); [done|].
    intros [k s] Hin. cbn [nd_shape drop fst snd].
    by eapply unflatten_entry_block.
  - intros [k s] Hin. by eapply lookup_ravel_length.
  - done.
  - simpl. lia.
Qed.

Lemma unflattened_lookup rest X items k s :
  NoDup (map fst items) -> respects rest X items -> (k, s) ∈ items ->
  exists v w,
    X !! k = Some v /\
    (list_to_map (map (unflattened_entry rest X) items)
       : gmap string (pyval A)) !! k = Some w /\
    np_array_equal w v /\
    (s = [] -> rest = [] -> exists a, w = PyScalar a).
Proof.
  intros Hnd H Hin.
  pose proof (lookup_ravel_length _ _ _ _ _ H Hin) as Hlen.
  unfold respects in H. rewrite Forall_forall in H.
  destruct (H _ Hin) as (v & Hv & Hs & Hwf). simpl in *.
  exists v, (unflattened_entry rest X (k, s)).2. split; [done|]. split.
  - apply elem_of_list_to_map_1.
    + rewrite <- list_fmap_compose.
      replace (fst ∘ unflattened_entry rest X) with
        (fst : string * list nat -> string); [done|].
      reflexivity.
    + apply list_elem_of_fmap. by exists (k, s).
  - unfold unflattened_entry. cbn [fst snd].
    unfold lookup_ravel in *. rewrite Hv in *.
    destruct (is_nonempty s || is_nonempty rest) eqn:Hne.
    + split; [by split|]. intros -> ->. done.
    + apply orb_false_elim in Hne as [Hs' Hr].
      destruct s; [|done]. destruct rest; [|done]. simpl in *.
      destruct (np_ravel v) as [|x [|y l]] eqn:Hr'; simpl in *; try lia.
      split; [|by eauto]. unfold np_array_equal. by rewrite Hs, Hr'.
Qed.

End FlattenFacts.

Section FlattenClaims.
Context {A : Type}.
Implicit Types (items : list (string * list nat)).
Implicit Types (X Y : gmap string (pyval A)) (rest : list nat).

Lemma all_shapes_equal_match items X :
  supplies X items -> ~ mismatched X items ->
  all_shapes_equal items X = Ok true.
Proof.
  intros Hsup. induction Hsup as [|[k s] items [v Hk] _ IH];
    intros Hno; simpl in *; [done|].
  rewrite Hk. case_decide as Hs.
  - apply IH. intros Hex. apply Hno. by apply Exists_cons_tl.
  - destruct Hno. apply Exists_cons_hd. by exists v.
Qed.

Lemma ravel_keys_supplies items X :
  supplies X items ->
  comprehension (ravel_key X) (map fst items) =
  Ok (map (fun ks => lookup_ravel X ks.1) items).
Proof.
  intros H. rewrite (comprehension_map _ (lookup_ravel X)), map_map; [done|].
  intros k Hk. apply list_elem_of_fmap in Hk as ([k' s] & -> & Hin).
  unfold supplies in H. rewrite Forall_forall in H.
  destruct (H _ Hin) as [v Hv].
  unfold ravel_key, lookup_ravel. simpl in *. by rewrite Hv.
Qed.

Lemma flatten_match items X :
  items <> [] -> supplies X items -> ~ mismatched X items ->
  flatten (FlattenArrays_init items) X =
  Ok (NdArray [length (flat_data X items)] (flat_data X items)).
Proof.
  intros Hne Hsup Hno. unfold flatten. cbn [fa_items FlattenArrays_init].
  rewrite all_shapes_equal_match by done. cbn [Py.bind].
  rewrite ravel_keys_supplies by done. cbn [Py.bind].
  destruct items; done.
Qed.

Lemma respects_supplies rest X items :
  respects rest X items -> supplies X items.
Proof.
  intros H. eapply Forall_impl; [exact H|].
  intros ks (v & Hv & _). by exists v.
Qed.

Lemma respects_not_mismatched X items :
  respects [] X items -> ~ mismatched X items.
Proof.
  unfold respects, mismatched. rewrite Forall_forall, Exists_exists.
  intros H (ks & Hin & v & Hv & Hne).
  destruct (H _ Hin) as (w & Hw & Hs & _). rewrite app_nil_r in Hs. congruence.
Qed.

(** C8, as amended.  For a [FlattenArrays] with at least one registered
    key and a mapping that supplies every registered key: if the array
    supplied for some key has a shape different from the registered one
    (any difference, a broadcast-compatible shape included) [flatten]
    raises [AssertionError] and nothing is concatenated; if every shape
    is the registered one it returns the 1-D array holding the ravelled
    arrays one after the other in registration order. *)
Theorem flatten_checks_shapes_then_concatenates items X :
  items <> [] ->
  supplies X items ->
  (mismatched X items ->
     flatten (FlattenArrays_init items) X = Raise AssertionError) /\
  (~ mismatched X items ->
     flatten (FlattenArrays_init items) X =
     Ok (NdArray [length (flat_data X items)] (flat_data X items))).
Proof.
  intros Hne Hsup. split.
  - intros Hmis. unfold flatten. cbn [fa_items FlattenArrays_init].
    by rewrite all_shapes_equal_mismatch.
  - intros Hno. by apply flatten_match.
Qed.

(** C4, as amended.  For a registry with pairwise distinct keys:
    (natural rank) if at least one key is registered and [X] gives every
    registered key a well-formed array of exactly the registered shape,
    then [flatten X] succeeds, [unflatten] of it with the default [ndim]
    succeeds, the two agree elementwise on every registered key, and a
    key registered with the empty shape comes back as a plain scalar;
    (batched) [unflatten] with [ndim = 1] splits the LEADING axis: for
    the array of shape [(size,) + rest] whose blocks of rows are the
    ravelled arrays of [Y], each of shape [shape_k + rest], it returns
    the arrays of [Y] elementwise. *)
Theorem unflatten_flatten_roundtrip items X Y rest :
  NoDup (map fst items) ->
  items <> [] ->
  respects [] X items ->
  respects rest Y items ->
  (exists flat out,
      flatten (FlattenArrays_init items) X = Ok flat /\
      unflatten (FlattenArrays_init items) (PyArr flat) None = Ok out /\
      forall k s, (k, s) ∈ items ->
        exists v w, X !! k = Some v /\ out !! k = Some w /\
                    np_array_equal w v /\
                    (s = [] -> exists a, w = PyScalar a)) /\
  (exists out,
      unflatten (FlattenArrays_init items)
        (PyArr (NdArray (sum_list (item_sizes items) :: rest)
                        (flat_data Y items)))
        (Some 1) = Ok out /\
      forall k s, (k, s) ∈ items ->
        exists v w, Y !! k = Some v /\ out !! k = Some w /\
                    np_array_equal w v).
Proof.
  intros Hnd Hne HX HY. split.
  - eexists _, _. split.
    { apply flatten_match; eauto using respects_supplies,
        respects_not_mismatched. }
    split.
    { unfold unflatten at 1. cbn [np_asanyarray nd_shape length default].
      pose proof (unflatten_blocks [] X items HX) as Hu.
      rewrite (flat_data_length [] X items HX) by done.
      simpl np_prod. rewrite Nat.mul_1_r.
      unfold unflatten in Hu. cbn [np_asanyarray default] in Hu.
      exact Hu. }
    intros k s Hin.
    destruct (unflattened_lookup [] X items k s Hnd HX Hin)
      as (v & w & Hv & Hw & Heq & Hsc).
    exists v, w. repeat split; try done; try apply Heq. auto.
  - eexists. split; [by apply unflatten_blocks|].
    intros k s Hin.
    destruct (unflattened_lookup rest Y items k s Hnd HY Hin)
      as (v & w & Hv & Hw & Heq & _).
    by exists v, w.
Qed.

End FlattenClaims.

Lemma respects_demo_X : respects [] Demo.X Demo.items.
Proof.
  repeat apply Forall_cons_2; [| |apply Forall_nil_2].
  - eexists. split; [reflexivity|]. by split.
  - eexists. split; [reflexivity|]. by split.
Qed.

Lemma respects_demo_Y : respects [2] Demo.Y Demo.items.
Proof.
  repeat apply Forall_cons_2; [| |apply Forall_nil_2].
  - eexists. split; [reflexivity|]. by split.
  - eexists. split; [reflexivity|]. by split.
Qed.

Lemma flatten_checks_shapes_then_concatenates_witness :
  flatten (FlattenArrays_init Demo.items) Demo.X =
  Ok (NdArray [3] [0; 1; 7]%Z).
Proof.
  destruct (flatten_checks_shapes_then_concatenates Demo.items Demo.X)
    as [_ H].
  - discriminate.
  - exact (respects_supplies _ _ _ respects_demo_X).
  - rewrite H; [reflexivity|].
    exact (respects_not_mismatched _ _ respects_demo_X).
Defined.

(** ** Uncertainty propagation with the identity Jacobian *)

Section PropagateFacts.
Context {F : Type} (f0 f1 : F) (fadd fmul : F -> F -> F).

Lemma row_of_entries (d : F) (l : list F) c b :
  b + c <= length l ->
  map (fun j => nth (b + j) l d) (seq 0 c) = take c (drop b l).
Proof.
  revert b. induction c as [|c IH]; intros b Hb; [done|].
  destruct (lookup_lt_is_Some_2 l b) as [x Hx]; [lia|].
  rewrite (drop_S _ _ _ Hx). cbn [seq map take].
  rewrite Nat.add_0_r, (nth_lookup_Some _ _ _ _ Hx). f_equal.
  rewrite <- fmap_S_seq, <- (IH (S b)) by lia.
  rewrite <- list_fmap_compose. apply map_ext. intros j. simpl.
  f_equal. lia.
Qed.

Lemma tabulate_of_entries (d : F) (l : list F) c r a :
  (a + r) * c <= length l ->
  flat_map (fun i => map (fun j => nth (i * c + j) l d) (seq 0 c)) (seq a r) =
  take (r * c) (drop (a * c) l).
Proof.
  revert a. induction r as [|r IH]; intros a Ha; [done|].
  cbn [seq flat_map]. rewrite row_of_entries by lia.
  rewrite IH by lia.
  replace (S a * c) with (a * c + c) by lia.
  rewrite <- drop_drop. apply take_take_drop.
Qed.

Lemma entry_of_tabulate (d : F) (g : nat -> nat -> F) c r a i j :
  a <= i < a + r -> j < c ->
  nth ((i - a) * c + j)
      (flat_map (fun i => map (g i) (seq 0 c)) (seq a r)) d = g i j.
Proof.
  revert a. induction r as [|r IH]; intros a Hi Hj; [lia|].
  cbn [seq flat_map].
  destruct (decide (i = a)) as [->|Hne].
  - rewrite Nat.sub_diag. simpl.
    rewrite app_nth1 by (rewrite length_map, length_seq; lia).
    apply nth_lookup_Some.
    rewrite list_lookup_fmap, lookup_seq_lt by lia. done.
  - rewrite app_nth2 by (rewrite length_map, length_seq; nia).
    rewrite length_map, length_seq.
    replace ((i - a) * c + j - c) with ((i - S a) * c + j) by nia.
    apply IH; lia.
Qed.

Lemma mat_entry_tabulate2 (g : nat -> nat -> F) r c i j :
  i < r -> j < c -> mat_entry f0 c (tabulate2 r c g) i j = g i j.
Proof.
  intros Hi Hj. unfold mat_entry, tabulate2.
  rewrite <- (entry_of_tabulate f0 g c r 0 i j) by lia.
  by rewrite Nat.sub_0_r.
Qed.

Lemma tabulate2_mat_entry (l : list F) r c :
  length l = r * c -> tabulate2 r c (mat_entry f0 c l) = l.
Proof.
  intros Hl. unfold tabulate2, mat_entry.
  rewrite tabulate_of_entries by lia. simpl.
  apply take_ge. lia.
Qed.

Lemma flat_map_ext_elem {T U : Type} (f g : T -> list U) (l : list T) :
  (forall x, x ∈ l -> f x = g x) -> flat_map f l = flat_map g l.
Proof.
  induction l as [|x l IH]; intros Hfg; simpl; [done|].
  rewrite Hfg by apply list_elem_of_here. rewrite IH; [done|].
  intros y Hy. by apply Hfg, list_elem_of_further.
Qed.

Lemma tabulate2_ext (g h : nat -> nat -> F) r c :
  (forall i j, i < r -> j < c -> g i j = h i j) ->
  tabulate2 r c g = tabulate2 r c h.
Proof.
  intros Hgh. apply flat_map_ext_elem. intros i Hi.
  apply elem_of_seq in Hi. apply map_ext_in. intros j Hj.
  apply in_seq in Hj. apply Hgh; lia.
Qed.

Lemma tabulate2_length (g : nat -> nat -> F) r c :
  length (tabulate2 r c g) = r * c.
Proof.
  unfold tabulate2.
  assert (forall a, length (flat_map (fun i => map (g i) (seq 0 c)) (seq a r))
                    = r * c) as Hlen; [|apply Hlen].
  induction r as [|r IH]; intros a; cbn [seq flat_map]; [done|].
  rewrite length_app, length_map, length_seq, IH. lia.
Qed.

Hypothesis fadd_0_l : forall x, fadd f0 x = x.
Hypothesis fadd_0_r : forall x, fadd x f0 = x.
Hypothesis fmul_0_l : forall x, fmul f0 x = f0.
Hypothesis fmul_0_r : forall x, fmul x f0 = f0.
Hypothesis fmul_1_l : forall x, fmul f1 x = x.
Hypothesis fmul_1_r : forall x, fmul x f1 = x.

Lemma foldl_single_term (term : nat -> F) i n a acc :
  (forall k, a <= k < a + n -> k <> i -> term k = f0) ->
  foldl fadd acc (map term (seq a n)) =
  if decide (a <= i < a + n) then fadd acc (term i) else acc.
Proof using fadd_0_r.
  revert a acc. induction n as [|n IH]; intros a acc Hz.
  - simpl. case_decide; [lia|done].
  - cbn [seq map foldl]. rewrite IH by (intros; apply Hz; lia).
    destruct (decide (i = a)) as [->|Hne].
    + rewrite decide_False by lia. by rewrite decide_True by lia.
    + rewrite (Hz a) by (done || lia). rewrite fadd_0_r.
      repeat case_decide; done || lia.
Qed.

Lemma fsum_single_term (term : nat -> F) i n :
  i < n -> (forall k, k < n -> k <> i -> term k = f0) ->
  fsum f0 fadd (map term (seq 0 n)) = term i.
Proof using fadd_0_l fadd_0_r.
  intros Hi Hz. unfold fsum.
  rewrite (foldl_single_term term i) by (intros; apply Hz; lia).
  rewrite decide_True by lia. apply fadd_0_l.
Qed.

Lemma eye_entry n i j :
  i < n -> j < n ->
  mat_entry f0 n (nd_data (np_eye f0 f1 n)) i j = if i =? j then f1 else f0.
Proof. intros. unfold np_eye. simpl. by apply mat_entry_tabulate2. Qed.

Lemma np_dot_eye_l n (c : list F) :
  length c = n * n ->
  np_dot f0 fadd fmul (np_eye f0 f1 n) (NdArray [n; n] c) =
  Ok (NdArray [n; n] c).
Proof using fadd_0_l fadd_0_r fmul_0_l fmul_1_l.
  intros Hc. unfold np_dot. cbn [nd_shape np_eye nd_data].
  rewrite decide_True by done. do 2 f_equal.
  transitivity (tabulate2 n n (mat_entry f0 n c));
    [|by apply tabulate2_mat_entry].
  apply tabulate2_ext. intros i j Hi Hj.
  rewrite (fsum_single_term _ i); [|done|].
  - rewrite (mat_entry_tabulate2 _ n n i i) by done.
    by rewrite Nat.eqb_refl, fmul_1_l.
  - intros k Hk Hne. rewrite (mat_entry_tabulate2 _ n n i k) by done.
    destruct (Nat.eqb_spec i k); [congruence|apply fmul_0_l].
Qed.

Lemma np_dot_eye_r n (c : list F) :
  length c = n * n ->
  np_dot f0 fadd fmul (NdArray [n; n] c) (np_eye f0 f1 n) =
  Ok (NdArray [n; n] c).
Proof using fadd_0_l fadd_0_r fmul_0_r fmul_1_r.
  intros Hc. unfold np_dot. cbn [nd_shape np_eye nd_data].
  rewrite decide_True by done. do 2 f_equal.
  transitivity (tabulate2 n n (mat_entry f0 n c));
    [|by apply tabulate2_mat_entry].
  apply tabulate2_ext. intros i j Hi Hj.
  rewrite (fsum_single_term _ j); [|done|].
  - rewrite (mat_entry_tabulate2 _ n n j j) by done.
    by rewrite Nat.eqb_refl, fmul_1_r.
  - intros k Hk Hne. rewrite (mat_entry_tabulate2 _ n n k j) by done.
    destruct (Nat.eqb_spec k j); [congruence|apply fmul_0_r].
Qed.

Lemma nd_transpose_eye n :
  nd_transpose f0 (np_eye f0 f1 n) = np_eye f0 f1 n.
Proof.
  unfold nd_transpose, np_eye. cbn [nd_shape nd_data]. f_equal.
  apply tabulate2_ext. intros i j Hi Hj.
  rewrite mat_entry_tabulate2 by done. by rewrite Nat.eqb_sym.
Qed.

Lemma multi_dot3_eye n (c : list F) :
  length c = n * n ->
  multi_dot3 f0 fadd fmul (np_eye f0 f1 n) (NdArray [n; n] c)
             (np_eye f0 f1 n) = Ok (NdArray [n; n] c).
Proof using fadd_0_l fadd_0_r fmul_0_l fmul_0_r fmul_1_l fmul_1_r.
  intros Hc. unfold multi_dot3. cbn [nd_shape np_eye].
  fold (np_eye f0 f1 n). case_decide.
  - rewrite np_dot_eye_l by done. cbn [Py.bind]. by apply np_dot_eye_r.
  - rewrite np_dot_eye_r by done. cbn [Py.bind]. by apply np_dot_eye_l.
Qed.

Lemma nd_reshape_same (a : ndarray F) s :
  np_prod s = length (nd_data a) ->
  nd_reshape a s = Ok (NdArray s (nd_data a)).
Proof. intros Hs. unfold nd_reshape. by rewrite decide_True. Qed.

Lemma propagate_uncertainty_eye n (c : list F) :
  length c = n * n ->
  propagate_uncertainty f0 fadd fmul (PyArr (NdArray [n; n] c))
                        (np_eye f0 f1 n) = Ok (NdArray [n; n] c).
Proof using fadd_0_l fadd_0_r fmul_0_l fmul_0_r fmul_1_l fmul_1_r.
  intros Hc. unfold propagate_uncertainty.
  cbn [np_asanyarray nd_shape np_eye length].
  change (2 / 2) with 1. change (Z.of_nat 2 - Z.of_nat 1)%Z with 1%Z.
  change (tuple_from [n; n] 1) with [n].
  change (tuple_upto [n; n] 1) with [n].
  change (take 1 [n; n]) with [n]. change (drop 1 [n; n]) with [n].
  rewrite decide_True by done.
  change (np_prod [n]) with (n * 1). rewrite Nat.mul_1_r.
  rewrite nd_reshape_same by (simpl; lia). cbn [Py.bind nd_data].
  rewrite nd_reshape_same by (simpl; rewrite tabulate2_length; lia).
  cbn [Py.bind].
  change {| nd_shape := [n; n]; nd_data := nd_data (np_eye f0 f1 n) |}
    with (np_eye f0 f1 n).
  rewrite nd_transpose_eye, multi_dot3_eye by done. cbn [Py.bind].
  apply nd_reshape_same. simpl. lia.
Qed.

Lemma propagate_uncertainty_assert (cov : pyval F) (jac : ndarray F) :
  let var_ndim := length (np_shape cov) / 2 in
  jac_var_shape (np_shape cov) (nd_shape jac) <> take var_ndim (np_shape cov)
  \/ jac_var_shape (np_shape cov) (nd_shape jac) <>
       drop var_ndim (np_shape cov) ->
  propagate_uncertainty f0 fadd fmul cov jac = Raise AssertionError.
Proof.
  intros var_ndim Hbad. unfold propagate_uncertainty.
  rewrite decide_False; [done|].
  intros [H1 H2]. unfold jac_var_shape, np_shape, var_ndim in Hbad.
  destruct Hbad as [Hbad|Hbad]; apply Hbad;
    [exact H1 | exact (eq_trans H1 H2)].
Qed.

(** C9.  With the identity matrix as Jacobian, an n by n covariance is
    propagated to itself; and when the trailing variable axes of the
    Jacobian are not exactly both halves of the covariance's shape,
    [propagate_uncertainty] fails with [AssertionError].  The entries
    only need zero to be neutral for addition and absorbing for
    multiplication and one to be neutral for multiplication. *)
Theorem propagate_uncertainty_identity_and_check
    n (c : list F) (cov : pyval F) (jac : ndarray F) :
  length c = n * n ->
  (jac_var_shape (np_shape cov) (nd_shape jac) <>
     take (length (np_shape cov) / 2) (np_shape cov)
   \/ jac_var_shape (np_shape cov) (nd_shape jac) <>
      drop (length (np_shape cov) / 2) (np_shape cov)) ->
  propagate_uncertainty f0 fadd fmul (PyArr (NdArray [n; n] c))
                        (np_eye f0 f1 n) = Ok (NdArray [n; n] c) /\
  propagate_uncertainty f0 fadd fmul cov jac = Raise AssertionError.
Proof using fadd_0_l fadd_0_r fmul_0_l fmul_0_r fmul_1_l fmul_1_r.
  intros Hc Hbad. split.
  - by apply propagate_uncertainty_eye.
  - by apply propagate_uncertainty_assert.
Qed.

End PropagateFacts.

(** ** The Newton-Raphson helpers *)

Section SpecialFacts.
Context {F : Type}.
Context (is_neg : F -> bool) (of_Q : Q -> F).
Context (fneg : F -> F) (fadd fsub fmul fdiv fpow fmax : F -> F -> F).
Context (fexp flog digamma trigamma : F -> F).
Context (linalg_solve : (F * F) * (F * F) -> F * F -> res (F * F)).

Local Abbreviation beta_newton' :=
  (beta_newton of_Q fneg fadd fsub fdiv fmax fexp digamma trigamma
               linalg_solve).

Lemma zip_with_map_self {T U V : Type} (f : U -> T -> V) (g : T -> U) l :
  zip_with f (map g l) l = map (fun c => f (g c) c) l.
Proof. induction l; simpl; congruence. Qed.

Lemma for_range_elementwise (r : F -> F -> F) n (g : F -> F) cs :
  for_range n (fun x0 => zip_with (fun x ci => r ci x) x0 cs) (map g cs) =
  map (fun c => for_range n (r c) (g c)) cs.
Proof.
  revert g. induction n as [|n IH]; intros g; [done|].
  cbn [for_range]. rewrite zip_with_map_self.
  apply (IH (fun c => r c (g c))).
Qed.

Lemma forallb_false_Exists (p : F -> bool) l :
  forallb p l = false <-> Exists (fun x => p x = false) l.
Proof.
  induction l as [|x l IH]; simpl.
  - split; [done|]. by intros ?%Exists_nil.
  - rewrite Exists_cons, andb_false_iff. clear -IH. tauto.
Qed.

Lemma forallb_true_Forall (p : F -> bool) l :
  forallb p l = true <-> Forall (fun x => p x = true) l.
Proof.
  induction l as [|x l IH]; simpl.
  - split; [constructor|done].
  - rewrite Forall_cons, andb_true_iff. clear -IH. tauto.
Qed.

(** C7.  [invpsilog c] raises (a [ValueError], before any refinement)
    exactly when some element of [c] fails the test [< 0]; when every
    element is negative it returns, for each element, the starting
    guess refined by exactly four Newton-Raphson updates, whatever the
    values met on the way. *)
Theorem invpsilog_domain_check_and_four_refinements (c : pyval F) :
  let invpsilog :=
    invpsilog is_neg of_Q fneg fadd fsub fmul fdiv fpow flog digamma
              trigamma in
  let start := invpsilog_start of_Q fneg fadd fsub fmul fdiv fpow in
  let refine := invpsilog_refine of_Q fsub fdiv flog digamma trigamma in
  (invpsilog c = Raise ValueError <->
     Exists (fun x => is_neg x = false) (np_ravel c)) /\
  (is_ok (invpsilog c) = false <->
     Exists (fun x => is_neg x = false) (np_ravel c)) /\
  (Forall (fun x => is_neg x = true) (np_ravel c) ->
     invpsilog c =
     Ok (NdArray (np_shape c)
           (map (fun ci =>
                   refine ci (refine ci (refine ci (refine ci (start ci)))))
                (np_ravel c)))).
Proof.
  cbv zeta. unfold invpsilog, np_ravel, np_shape.
  destruct (forallb is_neg (nd_data (np_asanyarray c))) eqn:Hall; simpl.
  - apply forallb_true_Forall in Hall as Hall'.
    assert (~ Exists (fun x => is_neg x = false) (nd_data (np_asanyarray c)))
      as Hno.
    { rewrite Exists_exists. intros (x & Hx & Hneg).
      rewrite Forall_forall in Hall'. specialize (Hall' x Hx). congruence. }
    repeat split; try done.
    intros _. f_equal. f_equal.
    apply (for_range_elementwise
             (invpsilog_refine of_Q fsub fdiv flog digamma trigamma) 4).
  - apply forallb_false_Exists in Hall as Hex.
    repeat split; try done.
    intros Hall'. rewrite Forall_forall in Hall'.
    apply Exists_exists in Hex as (x & Hx & Hneg).
    specialize (Hall' x Hx). congruence.
Qed.

Lemma comprehension_length {T U : Type} (f : T -> res U) l l' :
  comprehension f l = Ok l' -> length l' = length l.
Proof.
  revert l'. induction l as [|x l IH]; intros l' Hl; simpl in *.
  - by inversion Hl.
  - destruct (f x); [|done]. simpl in Hl.
    destruct (comprehension f l) eqn:Hc; [|done]. simpl in Hl.
    inversion Hl. simpl. f_equal. by apply IH.
Qed.

Lemma beta_newton_pass_length lnXs ab ab' :
  length ab = length lnXs ->
  beta_newton_pass fneg fadd fsub digamma trigamma linalg_solve lnXs ab
    = Ok ab' ->
  length ab' = length lnXs.
Proof.
  intros Hlen Hpass. apply comprehension_length in Hpass.
  rewrite Hpass, length_zip. lia.
Qed.

Lemma for_range_res_length n lnXs ab ab' :
  length ab = length lnXs ->
  for_range_res n
    (beta_newton_pass fneg fadd fsub digamma trigamma linalg_solve lnXs)
    ab = Ok ab' ->
  length ab' = length lnXs.
Proof.
  revert ab. induction n as [|n IH]; intros ab Hlen Hrun; simpl in Hrun.
  - by inversion Hrun; subst.
  - destruct (beta_newton_pass _ _ _ _ _ _ lnXs ab) as [ab1|] eqn:Hp;
      [|done].
    simpl in Hrun. eapply IH; [|exact Hrun].
    by eapply beta_newton_pass_length.
Qed.

Lemma beta_newton_length lnX ln1X ab :
  beta_newton' lnX ln1X = Ok ab -> length ab = length (np_ravel lnX).
Proof.
  unfold beta_newton, np_c_. case_decide as Hlen; [|done].
  cbn [Py.bind]. intros Hrun.
  apply for_range_res_length in Hrun; rewrite ?length_map; [|done].
  rewrite Hrun, length_zip. lia.
Qed.

(** C6 fails on the code.  Whenever the five Newton-Raphson iterations
    end with a negative entry, [inv_beta_suffstats] does emit the
    warning, but the [a] and [b] it returns are the values of the
    iteration as they are: the clipped array is never used, so a
    negative shape parameter is returned. *)
Theorem inv_beta_suffstats_returns_unclamped (lnX ln1X : pyval F) ab :
  pyval_wf lnX ->
  beta_newton of_Q fneg fadd fsub fdiv fmax fexp digamma trigamma
              linalg_solve lnX ln1X = Ok ab ->
  Exists (fun r => is_neg r.1 = true \/ is_neg r.2 = true) ab ->
  exists a b,
    inv_beta_suffstats is_neg of_Q fneg fadd fsub fdiv fmax fexp digamma
                       trigamma linalg_solve lnX ln1X =
      Ok ([RuntimeWarning clamp_message], (a, b)) /\
    np_ravel a = map fst ab /\ np_ravel b = map snd ab /\
    Exists (fun x => is_neg x = true) (np_ravel a ++ np_ravel b).
Proof.
  intros Hwf Hnewton Hex.
  pose proof (beta_newton_length _ _ _ Hnewton) as Hlen.
  assert (existsb (fun r => is_neg r.1 || is_neg r.2) ab = true) as Hany.
  { apply existsb_exists. apply Exists_exists in Hex as (r & Hr & Hneg).
    exists r. split; [by apply list_elem_of_In|].
    apply orb_true_iff. tauto. }
  assert (Exists (fun x => is_neg x = true) (map fst ab ++ map snd ab))
    as Hout.
  { apply Exists_exists in Hex as (r & Hr & [Hneg|Hneg]).
    - apply Exists_app. left. apply Exists_exists. exists r.1.
      split; [|done]. apply list_elem_of_fmap. by exists r.
    - apply Exists_app. right. apply Exists_exists. exists r.2.
      split; [|done]. apply list_elem_of_fmap. by exists r. }
  unfold inv_beta_suffstats. rewrite Hnewton. cbn [Py.bind]. rewrite Hany.
  unfold pyval_wf, nd_wf in Hwf. unfold np_ravel in Hlen.
  unfold np_shape. rewrite Hwf in Hlen.
  destruct (nd_shape (np_asanyarray lnX)) as [|d s] eqn:Hshape.
  - simpl in Hlen. destruct ab as [|r [|r' ab]]; simpl in Hlen; try lia.
    exists (PyScalar r.1), (PyScalar r.2). by repeat split.
  - cbn [is_nonempty]. unfold nd_reshape. cbn [nd_data].
    rewrite !length_map, !decide_True by done. cbn [Py.bind].
    eexists _, _. by repeat split.
Qed.

End SpecialFacts.

(** ** The mode finder: status, result tuple and side effects *)

Section OptimiseFacts.
Context {F : Type}.
Context (fneg : F -> F).
Context {Rng : Type} (sample : string -> Rng -> pyval F * Rng).
Context (minimize : Z -> ndarray F -> OptimizeResult F).
Context (f0 : F) (fadd fmul : F -> F -> F).
Context (np_add : pyval F -> ndarray F -> res (pyval F)).
Context (factor_call :
           gmap string (pyval F) -> res (F * gmap string (pyval F))).
Context (factor_jacobian :
           gmap string (pyval F) -> list string ->
           res (list ((string * string) * ndarray F))).

Local Abbreviation maximise' := (maximise fneg sample minimize).

Lemma pop_free_vars_lookup vars (p0 d : gmap string (pyval F)) rng k :
  (pop_free_vars sample vars p0 d rng).1.2 !! k =
  if decide (k ∈ vars) then None else d !! k.
Proof.
  revert p0 d rng. induction vars as [|v vars IH]; intros p0 d rng;
    cbn [pop_free_vars fst snd].
  - rewrite decide_False; [done|]. apply not_elem_of_nil.
  - destruct (sample v rng) as [drawn rng']. rewrite IH. destruct (decide (k ∈ vars)) as [Hin|Hnin].
    + rewrite decide_True; [done|]. by apply list_elem_of_further.
    + destruct (decide (k = v)) as [->|Hne].
      * rewrite decide_True by (apply elem_of_cons; by left).
        apply lookup_delete_eq.
      * rewrite decide_False by (by apply not_elem_of_cons).
        by apply lookup_delete_ne.
Qed.

Lemma maximise_heap self st h :
  arrays_dict_of (maximise' self st h).2 =
  (pop_free_vars sample (free_vars self) ∅ (arrays_dict_of h) (rng_of h)).1.2.
Proof.
  unfold maximise.
  destruct (pop_free_vars sample (free_vars self) ∅ (arrays_dict_of h)
                          (rng_of h)) as [[p0 d] rng].
  by destruct (_minimise minimize self p0 (-1)).
Qed.

(** C10.  Whether [maximise] returns or raises, afterwards the caller's
    [arrays_dict] holds no entry under any free variable of the
    optimiser, and its other entries are untouched: the starting point
    passed in is consumed by the call. *)
Theorem maximise_pops_free_vars_from_arrays_dict self st h v k :
  v ∈ free_vars self ->
  k ∉ free_vars self ->
  arrays_dict_of (maximise fneg sample minimize self st h).2 !! v = None /\
  arrays_dict_of (maximise fneg sample minimize self st h).2 !! k =
    arrays_dict_of h !! k.
Proof.
  intros Hv Hk. rewrite maximise_heap, !pop_free_vars_lookup.
  by rewrite decide_True, decide_False.
Qed.

(** C5, as amended.  Folding a prior status into the one built by
    [_parse_result] keeps the prior messages, in order, followed by the
    new diagnostic message; the success flag is the optimiser's own
    flag, the prior flag being discarded, so it is the conjunction of
    the two flags only when the prior status was a success (as the
    default status is). *)
Theorem parse_status_appends_message_and_takes_new_flag
    (s1 : Status) (r : OptimizeResult F) :
  messages (parse_status (Some s1) r) = messages s1 ++ [diagnostic r] /\
  success (parse_status (Some s1) r) = res_success r /\
  (success s1 = true ->
     success (parse_status (Some s1) r) = success s1 && res_success r) /\
  parse_status None r = mkStatus (res_success r) [diagnostic r].
Proof.
  repeat split. intros Hs. simpl. by rewrite Hs.
Qed.

Lemma OptResult_new_five a b c d e (r : OptResult F) :
  OptResult_new [a; b; c; d; e] = Ok r ->
  status r = ObjStatus Status_default /\ full_hess_inv r = d /\ result r = e.
Proof. intros Hr. by inversion Hr. Qed.

Lemma parse_result_fields self (o : OptimizeResult F) st (r : OptResult F) :
  _parse_result fneg self o st = Ok r ->
  status r = ObjStatus Status_default /\
  full_hess_inv r = ObjOptimizeResult o /\
  result r = ObjStatus (parse_status st o).
Proof.
  unfold _parse_result.
  destruct (unflatten (param_shapes self) (PyArr (res_x o)) None); [|done].
  cbn [Py.bind].
  destruct (unflatten (param_shapes self) (PyArr (res_hess_inv o)) None);
    [|done].
  cbn [Py.bind]. apply OptResult_new_five.
Qed.

(** C2 fails on the code.  Whenever [maximise] returns, the [status]
    field of the tuple is the default status, a success with no
    message, whatever the optimiser reported: the five positional
    arguments of the constructor put the optimiser's result in
    [full_hess_inv] and the status that was built in [result]. *)
Theorem maximise_status_field_is_default self st h (r : OptResult F) h' :
  maximise fneg sample minimize self st h = (Ok r, h') ->
  status r = ObjStatus Status_default /\
  exists o, full_hess_inv r = ObjOptimizeResult o /\
            result r = ObjStatus (parse_status st o).
Proof.
  unfold maximise.
  destruct (pop_free_vars sample (free_vars self) ∅ (arrays_dict_of h)
                          (rng_of h)) as [[p0 d] rng].
  destruct (_minimise minimize self p0 (-1)) as [o|e]; [|done].
  intros Hr. inversion Hr as [[Hp Hh]].
  apply parse_result_fields in Hp as (Hs & Hf & Hres). eauto.
Qed.

Lemma update_det_cov_raises (res : OptResult F) jacobian :
  update_det_cov f0 fadd fmul np_add res jacobian = Raise AttributeError.
Proof. reflexivity. Qed.

(** C3 fails on the code.  [update_det_cov] reads the attribute
    [inv_hessian], which the result tuple does not have (its field is
    [hess_inv]), so with [return_cov] set [find_factor_mode] never
    returns a result: no covariance of a deterministic variable is
    ever stored. *)
Theorem find_factor_mode_return_cov_never_returns opt st h :
  is_ok (find_factor_mode fneg sample minimize f0 fadd fmul np_add
           factor_call factor_jacobian opt true st h).1 = false /\
  forall (res : OptResult F) jacobian,
    update_det_cov f0 fadd fmul np_add res jacobian = Raise AttributeError.
Proof.
  split; [|intros; apply update_det_cov_raises].
  unfold find_factor_mode.
  destruct (maximise' opt st h) as [[res|e] h']; [|done]. cbn [fst].
  destruct (mode res) as [m| | |]; try done.
  destruct (factor_call m) as [value|]; [|done]. cbn [Py.bind].
  destruct (factor_jacobian _ _); [|done]. cbn [Py.bind].
  by rewrite update_det_cov_raises.
Qed.

End OptimiseFacts.

(** ** The Laplace EP driver *)

Section LaplaceFacts.
Context {Approx Factor Delta Kws Rng : Type} `{Countable Factor}.
Context (laplace_factor_approx :
           Approx -> Factor -> Delta -> Kws -> Rng ->
           res (Approx * Status) * Rng).
Context (graph_factors : Approx -> list Factor).

Local Abbreviation step' := (step laplace_factor_approx graph_factors).
Local Abbreviation run_loop' :=
  (run_loop laplace_factor_approx graph_factors).

Lemma consume_outcome i (g : generator Rng (Factor * Approx)) st :
  (consume i g st).1.1 = gen_exn g /\
  new_approx_of (consume i g st).1.2 = gen_last g (new_approx_of st) /\
  (consume i g st).2 = gen_rng g.
Proof.
  revert st. induction g as [rng|[factor a] rest IH|e rng]; intros st;
    simpl; auto.
Qed.

(** A sweep over no factor yields nothing; a sweep over some factor that
    ends without an exception has yielded, and its last approximation
    does not depend on what was bound before. *)
Lemma step_last self m fs rng init init' :
  (default (graph_factors m) fs = [] -> init = init') ->
  gen_exn (step' self m fs rng) = None ->
  gen_last (step' self m fs rng) init = gen_last (step' self m fs rng) init'.
Proof.
  unfold step. destruct (default (graph_factors m) fs) as [|f l]; simpl.
  - auto.
  - intros _. by destruct (laplace_factor_approx m f _ _ rng) as [[[a s]|e] w].
Qed.

Lemma step_no_factor self m fs rng init :
  default (graph_factors m) fs = [] ->
  gen_last (step' self m fs rng) init = init.
Proof. unfold step. by intros ->. Qed.

Lemma step_with_n_iter self n m fs rng :
  step' (with_n_iter self n) m fs rng = step' self m fs rng.
Proof.
  unfold step. generalize (default (graph_factors m) fs) as l.
  generalize m as a.
  intros a l. revert a rng. induction l as [|f l IH]; intros a rng; simpl;
    [done|].
  destruct (laplace_factor_approx a f (delta self) (opt_kws self) rng)
    as [[[a' s]|e] w]; [|done].
  by rewrite IH.
Qed.

Lemma run_loop_with_n_iter self n m fs indices st rng :
  run_loop' (with_n_iter self n) m fs indices st rng =
  run_loop' self m fs indices st rng.
Proof.
  revert st rng. induction indices as [|i indices IH]; intros st rng; simpl;
    [done|].
  rewrite step_with_n_iter.
  destruct (consume i (step' self m fs rng) st) as [[[e|] st'] rng']; [done|].
  apply IH.
Qed.

(** What [run] returns depends neither on the values of the sweep index
    nor, once some factor has been updated, on what was bound to
    [new_approx] before. *)
Lemma run_loop_value self m fs indices indices' st st' rng :
  length indices = length indices' ->
  (default (graph_factors m) fs = [] \/ indices = [] ->
     new_approx_of st = new_approx_of st') ->
  return_new_approx (run_loop' self m fs indices st rng) =
    return_new_approx (run_loop' self m fs indices' st' rng) /\
  (run_loop' self m fs indices st rng).2 =
    (run_loop' self m fs indices' st' rng).2.
Proof.
  revert indices' st st' rng.
  induction indices as [|i indices IH]; intros [|i' indices'] st st' rng
    Hlen Hst; try done.
  - unfold return_new_approx. simpl. by rewrite Hst by auto.
  - cbn [run_loop].
    destruct (consume_outcome i (step' self m fs rng) st) as (He & Hl & Hr).
    destruct (consume_outcome i' (step' self m fs rng) st')
      as (He' & Hl' & Hr').
    destruct (consume i (step' self m fs rng) st) as [[e st1] rng1].
    destruct (consume i' (step' self m fs rng) st') as [[e' st1'] rng1'].
    simpl in He, Hl, Hr, He', Hl', Hr'. subst e e' rng1 rng1'.
    destruct (gen_exn (step' self m fs rng)) as [e|] eqn:Hexn; [done|].
    apply IH; [by inversion Hlen|].
    intros _. rewrite Hl, Hl'. apply step_last; auto.
Qed.

(** C1 fails on the code.  [run] does not build on its first sweep: if
    the first sweep completes, the value returned after the sweeps that
    follow is the value [run] returns when it only does those, from the
    approximation passed in and the random state the first sweep left.
    Every sweep starts again from the approximation passed in. *)
Theorem run_does_not_build_on_first_sweep self m fs hist hist' rng n :
  gen_exn (step laplace_factor_approx graph_factors self m fs rng) = None ->
  (run laplace_factor_approx graph_factors
       (with_n_iter self (S (S n))) m fs hist rng).1.1 =
  (run laplace_factor_approx graph_factors
       (with_n_iter self (S n)) m fs hist'
       (gen_rng (step laplace_factor_approx graph_factors self m fs rng))).1.1.
Proof.
  intros Hexn. unfold run. cbn [fst n_iter with_n_iter].
  rewrite !run_loop_with_n_iter.
  change (seq 0 (S (S n))) with (0 :: seq 1 (S n)). cbn [run_loop].
  set (st0 := {| history := hist; new_approx_of := None |}).
  destruct (consume_outcome 0 (step' self m fs rng) st0) as (He & Hl & Hr).
  destruct (consume 0 (step' self m fs rng) st0) as [[e st1] rng1].
  simpl in He, Hl, Hr. subst e rng1. rewrite Hexn.
  apply run_loop_value; [by rewrite !length_seq|].
  intros [Hfs|Hseq]; [|done].
  rewrite Hl. simpl. by apply step_no_factor.
Qed.

End LaplaceFacts.

(** ** The properties on the concrete instances *)

Local Open Scope string_scope.

Lemma unflatten_flatten_roundtrip_witness :
  (exists flat out,
      flatten (FlattenArrays_init Demo.items) Demo.X = Ok flat /\
      unflatten (FlattenArrays_init Demo.items) (PyArr flat) None = Ok out /\
      forall k s, (k, s) ∈ Demo.items ->
        exists v w, Demo.X !! k = Some v /\ out !! k = Some w /\
                    np_array_equal w v /\
                    (s = [] -> exists a, w = PyScalar a)) /\
  (exists out,
      unflatten (FlattenArrays_init Demo.items)
        (PyArr (NdArray (sum_list (item_sizes Demo.items) :: [2])
                        (flat_data Demo.Y Demo.items)))
        (Some 1) = Ok out /\
      forall k s, (k, s) ∈ Demo.items ->
        exists v w, Demo.Y !! k = Some v /\ out !! k = Some w /\
                    np_array_equal w v).
Proof.
  apply (unflatten_flatten_roundtrip Demo.items Demo.X Demo.Y [2]).
  - apply (bool_decide_unpack _). vm_compute. exact I.
  - discriminate.
  - exact respects_demo_X.
  - exact respects_demo_Y.
Defined.

(** C4 as stated fails.  With [a] of shape [(2,)] registered, a batch
    stacked along the leading axis so that the variable axis is the
    trailing one is not unflattened: one flattened row [[5, 6]] makes
    [unflatten] raise, and of three rows the first two come back as one
    2 by 2 array.  And with nothing registered [flatten] itself raises. *)
Lemma unflatten_trailing_axis_counterexample :
  unflatten (FlattenArrays_init Demo.vector_items)
            (PyArr (NdArray [1; 2] [5; 6]%Z)) (Some 1) = Raise ValueError /\
  unflatten (FlattenArrays_init Demo.vector_items)
            (PyArr (NdArray [3; 2] [1; 2; 3; 4; 5; 6]%Z)) (Some 1) =
    Ok {["a" := PyArr (NdArray [2; 2] [1; 2; 3; 4]%Z)]} /\
  flatten (FlattenArrays_init []) (∅ : gmap string (pyval Z)) =
    Raise ValueError.
Proof. repeat split; reflexivity. Qed.

(** C8 as stated fails.  With no key registered every shape matches, and
    [flatten] raises the [ValueError] of [np.concatenate] on an empty
    sequence instead of returning a 1-D array.  And when the mapping
    lacks the first registered key, the wrong shape supplied for a later
    key is not reached: the error is a [KeyError]. *)
Lemma flatten_empty_registry_counterexample :
  (supplies (∅ : gmap string (pyval Z)) [] /\
   ~ mismatched (∅ : gmap string (pyval Z)) [] /\
   flatten (FlattenArrays_init []) (∅ : gmap string (pyval Z)) =
     Raise ValueError) /\
  (mismatched Demo.only_b Demo.items /\
   flatten (FlattenArrays_init Demo.items) Demo.only_b = Raise KeyError).
Proof.
  split.
  - split; [apply Forall_nil_2|]. split; [|reflexivity].
    intros Hex. by apply Exists_nil in Hex.
  - split; [|reflexivity].
    apply Exists_cons_tl, Exists_cons_hd. eexists. split; [reflexivity|].
    discriminate.
Qed.

Lemma propagate_uncertainty_identity_and_check_witness :
  propagate_uncertainty 0%Z Z.add Z.mul (PyArr (NdArray [2; 2] Demo.cov))
                        (np_eye 0%Z 1%Z 2) = Ok (NdArray [2; 2] Demo.cov) /\
  propagate_uncertainty 0%Z Z.add Z.mul (PyArr (NdArray [2; 2] Demo.cov))
                        Demo.bad_jac = Raise AssertionError.
Proof.
  apply (propagate_uncertainty_identity_and_check 0%Z 1%Z Z.add Z.mul
           Z.add_0_l Z.add_0_r Z.mul_0_l Z.mul_0_r Z.mul_1_l Z.mul_1_r
           2 Demo.cov (PyArr (NdArray [2; 2] Demo.cov)) Demo.bad_jac).
  - reflexivity.
  - left. vm_compute. discriminate.
Defined.

Lemma invpsilog_domain_check_and_four_refinements_witness :
  invpsilog Demo.is_neg Demo.of_Q Z.opp Z.add Z.sub Z.mul Z.div Demo.fpow
            Demo.special Demo.special Demo.constant_one
            (PyArr (NdArray [2] [-1; -2]%Z)) =
  Ok (NdArray [2] [1; -5]%Z).
Proof.
  destruct (invpsilog_domain_check_and_four_refinements
              Demo.is_neg Demo.of_Q Z.opp Z.add Z.sub Z.mul Z.div Demo.fpow
              Demo.special Demo.special Demo.constant_one
              (PyArr (NdArray [2] [-1; -2]%Z))) as (_ & _ & Hrun).
  rewrite Hrun; [reflexivity|].
  repeat (apply Forall_cons_2; [reflexivity|]). apply Forall_nil_2.
Defined.

Lemma inv_beta_suffstats_returns_unclamped_witness :
  exists a b,
    inv_beta_suffstats Demo.is_neg Demo.of_Q Z.opp Z.add Z.sub Z.div Z.max
      Demo.special Demo.special Demo.constant_one Demo.solve_down
      (PyScalar 0%Z) (PyScalar 0%Z) =
      Ok ([RuntimeWarning clamp_message], (a, b)) /\
    np_ravel a = map fst [((-4)%Z, (-4)%Z)] /\
    np_ravel b = map snd [((-4)%Z, (-4)%Z)] /\
    Exists (fun x => Demo.is_neg x = true) (np_ravel a ++ np_ravel b).
Proof.
  apply (inv_beta_suffstats_returns_unclamped
           Demo.is_neg Demo.of_Q Z.opp Z.add Z.sub Z.div Z.max
           Demo.special Demo.special Demo.constant_one Demo.solve_down
           (PyScalar 0%Z) (PyScalar 0%Z) [((-4)%Z, (-4)%Z)]).
  - reflexivity.
  - reflexivity.
  - apply Exists_cons_hd. left. reflexivity.
Defined.

Lemma maximise_pops_free_vars_from_arrays_dict_witness :
  arrays_dict_of
    (maximise Z.opp Demo.sample Demo.minimize Demo.opt None
              Demo.caller_heap).2 !! "x" = None /\
  arrays_dict_of
    (maximise Z.opp Demo.sample Demo.minimize Demo.opt None
              Demo.caller_heap).2 !! "other" = Some (PyScalar 5%Z).
Proof.
  apply (maximise_pops_free_vars_from_arrays_dict
           Z.opp Demo.sample Demo.minimize Demo.opt None Demo.caller_heap
           "x" "other").
  - apply list_elem_of_here.
  - intros Hin. apply list_elem_of_singleton in Hin. discriminate.
Defined.

(** C5 as stated fails.  A failed status folded into the report of a
    successful optimisation comes out as a success, not as the
    conjunction of the two flags. *)
Lemma parse_status_discards_prior_failure_counterexample :
  let r := Demo.report true (NdArray [1] [0%Z]) in
  success (parse_status (Some Demo.failed) r) = true /\
  success Demo.failed && res_success r = false.
Proof. split; reflexivity. Qed.

Lemma parse_status_appends_message_and_takes_new_flag_witness :
  let r := Demo.report false (NdArray [1] [0%Z]) in
  success (parse_status (Some Status_default) r) =
  success Status_default && res_success r.
Proof.
  intros r.
  apply (parse_status_appends_message_and_takes_new_flag Status_default r).
  reflexivity.
Defined.

Lemma maximise_status_field_is_default_witness :
  exists r h',
    maximise Z.opp Demo.sample Demo.minimize Demo.opt None Demo.caller_heap
      = (Ok r, h') /\
    status r = ObjStatus Status_default /\
    result r = ObjStatus
                 (mkStatus false
                    ["optimise.find_factor_mode: nfev=21, nit=0, status=2, message=ABNORMAL_TERMINATION_IN_LNSRCH"]).
Proof.
  destruct (maximise Z.opp Demo.sample Demo.minimize Demo.opt None
                     Demo.caller_heap) as [[r|e] h'] eqn:Hm.
  - exists r, h'. split; [reflexivity|].
    destruct (maximise_status_field_is_default
                Z.opp Demo.sample Demo.minimize Demo.opt None
                Demo.caller_heap r h' Hm) as (Hs & o & Hf & Hr).
    split; [exact Hs|].
    vm_compute in Hm. injection Hm as Hm _. subst r. reflexivity.
  - vm_compute in Hm. discriminate.
Defined.

(** The mode finder on the same instance, with [return_cov] set: the
    attribute error of [update_det_cov] escapes. *)
Lemma find_factor_mode_return_cov_example :
  (find_factor_mode Z.opp Demo.sample Demo.minimize 0%Z Z.add Z.mul
     (fun _ jac => Ok (PyArr jac))
     (fun m => Ok (0%Z, ∅))
     (fun m vars => Ok [])
     Demo.opt true None Demo.caller_heap).1 = Raise AttributeError.
Proof. reflexivity. Qed.

(** Two sweeps over the factors [f] and [g], the k-th update adding k
    to the approximation: [run] returns 7 = 0 + 3 + 4, the outcome of
    the second sweep started from the input 0, and not 10 = 3 + 3 + 4,
    which sweeps that build on one another reach. *)
Lemma run_two_sweeps_example :
  (run Demo.laplace Demo.graph Demo.two_sweeps 0 None ∅ 0).1.1 = Ok 7 /\
  (run Demo.laplace Demo.graph Demo.two_sweeps 0 None ∅ 0).1.2 =
    <[(1, "g") := 7]> (<[(1, "f") := 3]>
      (<[(0, "g") := 3]> (<[(0, "f") := 1]> ∅))) /\
  (run_chained Demo.laplace Demo.graph Demo.two_sweeps 0 None ∅ 0).1.1 =
    Ok 10 /\
  (run Demo.laplace Demo.graph (with_n_iter Demo.two_sweeps 0) 0 None ∅ 0).1.1
    = Raise UnboundLocalError /\
  (run Demo.laplace Demo.graph Demo.two_sweeps 0 (Some []) ∅ 0).1.1
    = Raise UnboundLocalError.
Proof. repeat split; reflexivity. Qed.

Lemma run_does_not_build_on_first_sweep_witness :
  (run Demo.laplace Demo.graph
       (with_n_iter Demo.two_sweeps 2) 0 None ∅ 0).1.1 =
  (run Demo.laplace Demo.graph
       (with_n_iter Demo.two_sweeps 1) 0 None ∅
       (gen_rng (step Demo.laplace Demo.graph Demo.two_sweeps 0 None 0))).1.1.
Proof.
  apply (run_does_not_build_on_first_sweep
           Demo.laplace Demo.graph Demo.two_sweeps 0 None ∅ ∅ 0 0).
  reflexivity.
Defined.

(** ** [FlattenArrays]: sizes, missing keys, surplus entries *)

Local Open Scope list_scope.

Section FlattenMoreFacts.
Context {A : Type}.
Implicit Types (items : list (string * list nat)).
Implicit Types (X Y : gmap string (pyval A)) (rest : list nat).

Lemma cumsum_from_last acc l :
  l <> [] -> last (cumsum_from acc l) = Some (acc + sum_list l).
Proof.
  revert acc. induction l as [|x l IH]; intros acc Hne; [done|].
  destruct l as [|y l].
  - simpl. f_equal. lia.
  - change (cumsum_from acc (x :: y :: l))
      with ((acc + x) :: cumsum_from (acc + x) (y :: l)).
    rewrite last_cons, IH by done. simpl. f_equal. lia.
Qed.

(** X1.  For a registry with at least one key, the property [size] is
    the sum of the element counts of the registered shapes, and the
    vector [flatten] returns for a mapping of the registered shapes is
    one-dimensional with exactly that many elements. *)
Theorem size_is_total_and_length_of_flatten items X :
  items <> [] ->
  respects [] X items ->
  fa_size (FlattenArrays_init items) = Ok (sum_list (item_sizes items)) /\
  exists flat,
    flatten (FlattenArrays_init items) X = Ok flat /\
    nd_shape flat = [sum_list (item_sizes items)] /\
    length (nd_data flat) = sum_list (item_sizes items).
Proof.
  intros Hne HX. split.
  - unfold fa_size. cbn [splits FlattenArrays_init]. unfold np_cumsum.
    rewrite cumsum_from_last by (by destruct items). done.
  - eexists. split.
    { apply flatten_match; eauto using respects_supplies,
        respects_not_mismatched. }
    cbn [nd_shape nd_data].
    rewrite (flat_data_length [] X items HX). simpl. by rewrite Nat.mul_1_r.
Qed.

Lemma all_shapes_equal_agree items X Y :
  (forall k s, (k, s) ∈ items -> X !! k = Y !! k) ->
  all_shapes_equal items X = all_shapes_equal items Y.
Proof.
  induction items as [|[k s] items IH]; intros Hag; [done|]. simpl.
  rewrite <- (Hag k s) by apply list_elem_of_here.
  rewrite IH; [done|]. intros k' s' Hin. eapply Hag.
  by apply list_elem_of_further.
Qed.

Lemma ravel_keys_agree items X Y :
  (forall k s, (k, s) ∈ items -> X !! k = Y !! k) ->
  comprehension (ravel_key X) (map fst items) =
  comprehension (ravel_key Y) (map fst items).
Proof.
  induction items as [|[k s] items IH]; intros Hag; [done|]. simpl.
  unfold ravel_key at 1 3. rewrite <- (Hag k s) by apply list_elem_of_here.
  rewrite IH; [done|]. intros k' s' Hin. eapply Hag.
  by apply list_elem_of_further.
Qed.

(** X2.  [flatten] reads the mapping only under the registered keys:
    two mappings that agree on every registered key are flattened to the
    same result, value or exception, whatever else they hold. *)
Theorem flatten_reads_registered_keys_only items X Y :
  (forall k s, (k, s) ∈ items -> X !! k = Y !! k) ->
  flatten (FlattenArrays_init items) X = flatten (FlattenArrays_init items) Y.
Proof.
  intros Hag. unfold flatten. cbn [fa_items FlattenArrays_init].
  rewrite (all_shapes_equal_agree items X Y Hag).
  by rewrite (ravel_keys_agree items X Y Hag).
Qed.

Lemma all_shapes_equal_missing before k s after X :
  Forall (fun ks => exists v, X !! ks.1 = Some v /\ np_shape v = ks.2) before ->
  X !! k = None ->
  all_shapes_equal (before ++ (k, s) :: after) X = Raise KeyError.
Proof.
  intros Hbefore Hk.
  induction Hbefore as [|[k' s'] before (v & Hv & Hs) _ IH]; simpl in *.
  - by rewrite Hk.
  - rewrite Hv. by rewrite decide_True.
Qed.

(** X3.  When the mapping lacks a registered key and every key
    registered before it is supplied with the registered shape,
    [flatten] raises [KeyError], whatever the mapping holds for the keys
    registered after it. *)
Theorem flatten_missing_key_raises_KeyError before k s after X :
  Forall (fun ks => exists v, X !! ks.1 = Some v /\ np_shape v = ks.2) before ->
  X !! k = None ->
  flatten (FlattenArrays_init (before ++ (k, s) :: after)) X = Raise KeyError.
Proof.
  intros Hbefore Hk. unfold flatten. cbn [fa_items FlattenArrays_init].
  by rewrite all_shapes_equal_missing.
Qed.

Lemma slices_blocks_surplus rest d data (part : string * list nat -> list A)
    extra items acc :
  (forall ks, ks ∈ items -> length (part ks) = np_prod ks.2 * np_prod rest) ->
  drop (acc * np_prod rest) data = concat (map part items) ++ extra ->
  acc + sum_list (item_sizes items) <= d ->
  comprehension (fun ind => nd_slice_lead 1 ind (NdArray (d :: rest) data))
                (offsets_from acc (item_sizes items)) =
  Ok (map (fun ks => NdArray (np_prod ks.2 :: rest) (part ks)) items).
Proof.
  revert acc. induction items as [|[k s] items IH]; intros acc Hlen Hdrop Hd;
    [done|].
  simpl in Hd.
  change (item_sizes ((k, s) :: items)) with (np_prod s :: item_sizes items).
  cbn [offsets_from comprehension].
  unfold nd_slice_lead at 1. rewrite decide_True by (simpl; lia).
  cbn [nd_shape nd_data fst snd Py.bind]. rewrite slice_data_1, Hdrop.
  simpl map at 1. simpl concat. rewrite <- app_assoc.
  rewrite take_app_length'; cycle 1.
  { rewrite (Hlen (k, s)) by apply list_elem_of_here. simpl. f_equal. lia. }
  rewrite (IH (acc + np_prod s)); cycle 1.
  - intros ks Hks. by apply Hlen, list_elem_of_further.
  - rewrite Nat.mul_add_distr_r, <- drop_drop, Hdrop.
    simpl. rewrite <- app_assoc. rewrite drop_app_length'; [done|].
    by rewrite (Hlen (k, s)) by apply list_elem_of_here.
  - lia.
  - simpl. do 3 f_equal. unfold slice_shape. simpl. f_equal. lia.
Qed.

Lemma unflatten_surplus X items extra d :
  respects [] X items ->
  sum_list (item_sizes items) <= d ->
  unflatten (FlattenArrays_init items)
    (PyArr (NdArray [d] (flat_data X items ++ extra))) None =
  Ok (list_to_map (map (unflattened_entry [] X) items)).
Proof.
  intros H Hd. unfold unflatten. cbn [np_asanyarray default nd_shape length].
  rewrite inds_init.
  rewrite (slices_blocks_surplus [] _ _ (fun ks => lookup_ravel X ks.1)
             extra items 0).
  - cbn [Py.bind]. rewrite zip_slices.
    rewrite (comprehension_map_map _ _ (unflattened_entry [] X)); [done|].
    intros [k s] Hin. cbn [nd_shape drop fst snd].
    by eapply unflatten_entry_block.
  - intros [k s] Hin. by eapply lookup_ravel_length.
  - done.
  - simpl. lia.
Qed.

(** X4.  [unflatten] does not check the length of the vector against
    the registry: elements beyond the registered size are ignored, the
    result being that of the vector cut to the registered size. *)
Theorem unflatten_ignores_surplus_elements items X extra :
  respects [] X items ->
  unflatten (FlattenArrays_init items)
    (PyArr (NdArray [length (flat_data X items ++ extra)]
                    (flat_data X items ++ extra))) None =
  unflatten (FlattenArrays_init items)
    (PyArr (NdArray [length (flat_data X items)] (flat_data X items))) None.
Proof.
  intros HX.
  pose proof (flat_data_length [] X items HX) as Hlen. simpl in Hlen.
  rewrite (unflatten_surplus X items extra);
    [|done|rewrite length_app, Hlen; lia].
  pose proof (unflatten_surplus X items [] (length (flat_data X items)) HX)
    as Hexact.
  rewrite app_nil_r in Hexact. rewrite Hexact; [done|]. rewrite Hlen. lia.
Qed.

End FlattenMoreFacts.

(** ** [flatten2d]: the block-diagonal matrix and its round trip *)

Section Flatten2dFacts.
Context {A : Type} (f0 : A).
Implicit Types (items : list (string * list nat)).
Implicit Types (values : gmap string (pyval A)).
Implicit Types (blocks : list (nat * list A)).

Lemma chunks_length m d (data : list A) : length (chunks m d data) = d.
Proof. revert data. induction d; intros; simpl; auto. Qed.

Lemma chunks_row_lengths m d (data : list A) :
  length data = d * m -> Forall (fun r => length r = m) (chunks m d data).
Proof.
  revert data. induction d as [|d IH]; intros data Hlen; simpl.
  - constructor.
  - constructor.
    + rewrite length_take. lia.
    + apply IH. rewrite length_drop. lia.
Qed.

Lemma chunks_of_concat m d (rows : list (list A)) :
  Forall (fun r => length r = m) rows -> length rows = d ->
  chunks m d (concat rows) = rows.
Proof.
  intros Hrows. revert d.
  induction Hrows as [|r rows Hr _ IH]; intros d Hd; subst d; [done|].
  simpl. rewrite take_app_length', drop_app_length' by done.
  by rewrite IH.
Qed.

Lemma slice_data_2 i0 i1 r c (data : list A) :
  slice_data 2 i0 i1 [r; c] data =
  concat (map (slice_data 1 i0 i1 [c])
              (take (i1 - i0) (drop i0 (chunks c r data)))).
Proof.
  change (slice_data 2 i0 i1 [r; c] data)
    with (concat (map (slice_data 1 i0 i1 [c])
                      (take (i1 - i0) (drop i0 (chunks (c * 1) r data))))).
  by rewrite Nat.mul_1_r.
Qed.

Lemma slice_padded_row N off n (row : list A) :
  length row = n -> off + n <= N ->
  slice_data 1 off (off + n) [N]
    (replicate off f0 ++ row ++ replicate (N - off - n) f0) = row.
Proof.
  intros Hrow Hle. rewrite slice_data_1. simpl.
  rewrite !Nat.mul_1_r.
  rewrite drop_app_length' by (by rewrite length_replicate).
  replace (Nat.min (off + n - off) (N - off)) with n by lia.
  by rewrite take_app_length'.
Qed.

Lemma block_diag_rows_length N off blocks :
  length (block_diag_rows f0 N off blocks) = sum_list (map fst blocks).
Proof.
  revert off. induction blocks as [|[n data] blocks IH]; intros off; simpl;
    [done|].
  by rewrite length_app, length_map, chunks_length, IH.
Qed.

Lemma block_diag_rows_widths N off blocks :
  Forall (fun b => length b.2 = b.1 * b.1) blocks ->
  off + sum_list (map fst blocks) <= N ->
  Forall (fun r => length r = N) (block_diag_rows f0 N off blocks).
Proof.
  intros Hblocks. revert off.
  induction Hblocks as [|[n data] blocks Hb _ IH]; intros off Hle;
    simpl in *; [constructor|].
  apply Forall_app. split; [|apply IH; lia].
  apply Forall_fmap. eapply Forall_impl; [by apply chunks_row_lengths|].
  intros row Hrow. simpl in Hrow. unfold compose.
  rewrite !length_app, !length_replicate. lia.
Qed.

Lemma slices2d_blocks N (all_rows : list (list A)) blocks acc :
  Forall (fun r => length r = N) all_rows -> length all_rows = N ->
  drop acc all_rows = block_diag_rows f0 N acc blocks ->
  Forall (fun b => length b.2 = b.1 * b.1) blocks ->
  acc + sum_list (map fst blocks) <= N ->
  comprehension
    (fun ind => nd_slice_lead 2 ind (NdArray [N; N] (concat all_rows)))
    (offsets_from acc (map fst blocks)) =
  Ok (map (fun b => NdArray [b.1; b.1] b.2) blocks).
Proof.
  intros Hrows HN Hdrop Hblocks. revert acc Hdrop.
  induction Hblocks as [|[n data] blocks Hb _ IH]; intros acc Hdrop Hle;
    [done|].
  simpl in Hb, Hle. cbn [map fst offsets_from comprehension].
  unfold nd_slice_lead at 1. rewrite decide_True by (simpl; lia).
  cbn [nd_shape nd_data fst snd Py.bind].
  rewrite slice_data_2, (chunks_of_concat N N all_rows Hrows HN), Hdrop.
  cbn [block_diag_rows].
  replace (acc + n - acc) with n by lia.
  rewrite take_app_length' by (by rewrite length_map, chunks_length).
  rewrite map_map.
  rewrite (map_ext_in _ id); cycle 1.
  { intros row Hin. apply slice_padded_row; [|lia].
    pose proof (chunks_row_lengths n n data Hb) as Hall.
    rewrite Forall_forall in Hall. by apply Hall, list_elem_of_In. }
  rewrite map_id, concat_chunks, take_ge by lia.
  rewrite (IH (acc + n)); cycle 1.
  - rewrite <- drop_drop, Hdrop. cbn [block_diag_rows].
    by rewrite drop_app_length' by (by rewrite length_map, chunks_length).
  - lia.
  - simpl. do 3 f_equal. unfold slice_shape. simpl.
    f_equal; [lia|]. f_equal. lia.
Qed.

Lemma all_shapes_equal_respects2d items values :
  respects2d values items ->
  all_shapes_equal (map (fun ks => (ks.1, tuple_repeat ks.2 2)) items) values
  = Ok true.
Proof.
  induction 1 as [|[k s] items (v & Hk & Hs & _) _ IH]; simpl in *; [done|].
  rewrite Hk. rewrite decide_True; [done|].
  rewrite Hs. unfold tuple_repeat. simpl. by rewrite app_nil_r.
Qed.

Lemma lookup_ravel_length2d values items k s :
  respects2d values items -> (k, s) ∈ items ->
  length (lookup_ravel values k) = np_prod s * np_prod s.
Proof.
  intros H Hin. unfold respects2d in H. rewrite Forall_forall in H.
  destruct (H _ Hin) as (v & Hv & Hs & Hwf). simpl in *.
  unfold lookup_ravel. rewrite Hv. unfold pyval_wf, nd_wf in Hwf.
  unfold np_ravel. unfold np_shape in Hs.
  by rewrite Hwf, Hs, np_prod_app.
Qed.

Lemma square_blocks_respects2d items values :
  respects2d values items ->
  comprehension (square_block values) (sizes (FlattenArrays_init items)) =
  Ok (map (fun ks => (np_prod ks.2, lookup_ravel values ks.1)) items).
Proof.
  intros H. cbn [sizes FlattenArrays_init].
  apply comprehension_map_map. intros [k s] Hin.
  pose proof (lookup_ravel_length2d _ _ _ _ H Hin) as Hlen.
  unfold respects2d in H. rewrite Forall_forall in H.
  destruct (H _ Hin) as (v & Hv & Hs & Hwf). simpl in *.
  unfold square_block, lookup_ravel in *. cbn [fst snd]. rewrite Hv in *.
  unfold nd_reshape. rewrite decide_True; [done|].
  unfold np_ravel in Hlen. simpl. lia.
Qed.

Lemma flatten2d_respects2d items values :
  respects2d values items ->
  flatten2d f0 (FlattenArrays_init items) values =
  Ok (np_block_diag f0
        (map (fun ks => (np_prod ks.2, lookup_ravel values ks.1)) items)).
Proof.
  intros H. unfold flatten2d. cbn [fa_items FlattenArrays_init].
  rewrite all_shapes_equal_respects2d by done. cbn [Py.bind].
  by rewrite (square_blocks_respects2d items values H).
Qed.

Lemma unflatten_entry_block2d items values k s :
  respects2d values items -> (k, s) ∈ items ->
  unflatten_entry 2
    ((k, s), [], NdArray [np_prod s; np_prod s] (lookup_ravel values k)) =
  Ok (unflattened_entry2d values (k, s)).
Proof.
  intros H Hin. pose proof (lookup_ravel_length2d _ _ _ _ H Hin) as Hlen.
  unfold unflatten_entry, unflattened_entry2d. cbn [fst snd].
  rewrite orb_false_r.
  destruct (is_nonempty s) eqn:Hne.
  - unfold nd_reshape. cbn [nd_data]. rewrite decide_True; [done|].
    unfold tuple_repeat. simpl. rewrite !app_nil_r, np_prod_app. lia.
  - destruct s; [|done]. simpl in Hlen.
    unfold nd_item. cbn [nd_data].
    destruct (lookup_ravel values k) as [|x [|y l]]; simpl in *; done || lia.
Qed.

Lemma zip_slices_direct {T U V : Type} (f : T -> U) (g : T -> V)
    (l : list T) :
  zip (zip l (map f l)) (map g l) = map (fun x => (x, f x, g x)) l.
Proof. induction l; simpl; congruence. Qed.

Lemma unflatten_block_diag items values :
  respects2d values items ->
  unflatten (FlattenArrays_init items)
    (PyArr (np_block_diag f0
              (map (fun ks => (np_prod ks.2, lookup_ravel values ks.1))
                   items))) None =
  Ok (list_to_map (map (unflattened_entry2d values) items)).
Proof.
  intros H. destruct (decide (items = [])) as [->|Hne]; [done|].
  set (blocks := map (fun ks => (np_prod ks.2, lookup_ravel values ks.1))
                     items).
  assert (Forall (fun b => length b.2 = b.1 * b.1) blocks) as Hblocks.
  { apply Forall_fmap, Forall_forall. intros [k s] Hin. simpl.
    by eapply lookup_ravel_length2d. }
  assert (map fst blocks = item_sizes items) as Hsizes.
  { unfold blocks, item_sizes. rewrite map_map. done. }
  assert (np_block_diag f0 blocks =
          NdArray [sum_list (map fst blocks); sum_list (map fst blocks)]
            (concat (block_diag_rows f0 (sum_list (map fst blocks)) 0 blocks)))
    as ->.
  { unfold blocks. by destruct items. }
  unfold unflatten. cbn [np_asanyarray default nd_shape length].
  rewrite inds_init, <- Hsizes.
  rewrite (slices2d_blocks _ _ blocks 0); try done; cycle 1.
  - by apply block_diag_rows_widths.
  - apply block_diag_rows_length.
  - cbn [Py.bind fa_items FlattenArrays_init]. unfold blocks.
    rewrite !map_map, zip_slices_direct.
    rewrite (comprehension_map_map _ _ (unflattened_entry2d values)); [done|].
    intros [k s] Hin. cbn [nd_shape drop fst snd].
    by eapply unflatten_entry_block2d.
Qed.

(** X5.  For pairwise distinct keys and a mapping that supplies, for
    every registered key, a well-formed array whose shape is the
    registered shape repeated twice, [flatten2d] returns a block-diagonal
    matrix from which [unflatten2d] gives back the arrays, elementwise
    and with their shapes, a key of empty shape coming back as a plain
    scalar. *)
Theorem unflatten_flatten2d_roundtrip items values :
  NoDup (map fst items) ->
  respects2d values items ->
  exists M out,
    flatten2d f0 (FlattenArrays_init items) values = Ok M /\
    unflatten2d (FlattenArrays_init items) (PyArr M) None = Ok out /\
    forall k s, (k, s) ∈ items ->
      exists v w, values !! k = Some v /\ out !! k = Some w /\
                  np_array_equal w v /\
                  (s = [] -> exists a, w = PyScalar a).
Proof.
  intros Hnd H. eexists _, _.
  split; [by apply flatten2d_respects2d|].
  split; [by apply unflatten_block_diag|].
  intros k s Hin.
  pose proof (lookup_ravel_length2d _ _ _ _ H Hin) as Hlen.
  unfold respects2d in H. rewrite Forall_forall in H.
  destruct (H _ Hin) as (v & Hv & Hs & Hwf). simpl in *.
  exists v, (unflattened_entry2d values (k, s)).2. split; [done|]. split.
  - apply elem_of_list_to_map_1.
    + rewrite <- list_fmap_compose.
      replace (fst ∘ unflattened_entry2d values) with
        (fst : string * list nat -> string); [done|].
      reflexivity.
    + apply list_elem_of_fmap. by exists (k, s).
  - unfold unflattened_entry2d. cbn [fst snd].
    unfold lookup_ravel in *. rewrite Hv in *.
    destruct (is_nonempty s) eqn:Hne.
    + split; [|by intros ->]. split; [|done].
      rewrite Hs. unfold tuple_repeat. simpl. by rewrite !app_nil_r.
    + destruct s; [|done]. simpl in *.
      destruct (np_ravel v) as [|x [|y l]] eqn:Hr'; simpl in *; try lia.
      split; [|by eauto]. unfold np_array_equal. by rewrite Hs, Hr'.
Qed.

Lemma sum_list_append (l k : list nat) :
  sum_list (l ++ k) = sum_list l + sum_list k.
Proof. induction l as [|x l IH]; simpl; [done|]. rewrite IH. lia. Qed.

Lemma chunks_lookup m d (data : list A) r :
  r < d -> chunks m d data !! r = Some (take m (drop (r * m) data)).
Proof.
  revert data r. induction d as [|d IH]; intros data r Hr; [lia|].
  destruct r as [|r]; simpl; [done|].
  rewrite IH by lia. by rewrite drop_drop.
Qed.

Lemma concat_rows_lookup N (rows : list (list A)) i j :
  Forall (fun r => length r = N) rows -> j < N ->
  concat rows !! (i * N + j) = rows !! i ≫= (.!! j).
Proof.
  intros Hrows Hj. revert i.
  induction Hrows as [|r rows Hr _ IH]; intros i; [done|].
  destruct i as [|i]; simpl.
  - by rewrite lookup_app_l by lia.
  - rewrite lookup_app_r by lia. rewrite <- IH. f_equal. lia.
Qed.

Lemma block_diag_rows_lookup N off before n data after r :
  r < n ->
  block_diag_rows f0 N off (before ++ (n, data) :: after)
    !! (sum_list (map fst before) + r) =
  Some (replicate (off + sum_list (map fst before)) f0
        ++ take n (drop (r * n) data)
        ++ replicate (N - (off + sum_list (map fst before)) - n) f0).
Proof.
  intros Hr. revert off.
  induction before as [|[n0 d0] before IH]; intros off; simpl.
  - rewrite lookup_app_l by (by rewrite length_map, chunks_length).
    rewrite list_lookup_fmap, chunks_lookup by done. simpl.
    by rewrite Nat.add_0_r.
  - rewrite lookup_app_r by (rewrite length_map, chunks_length; lia).
    rewrite length_map, chunks_length.
    replace (n0 + sum_list (map fst before) + r - n0)
      with (sum_list (map fst before) + r) by lia.
    rewrite IH. by rewrite Nat.add_assoc.
Qed.

(** The entries of a row of [block_diag] that crosses the block
    [data]. *)
Lemma block_diag_entries before n data after r j :
  let blocks := before ++ (n, data) :: after in
  let off := sum_list (map fst before) in
  Forall (fun b => length b.2 = b.1 * b.1) blocks ->
  r < n ->
  j < sum_list (map fst blocks) ->
  entry2d (np_block_diag f0 blocks) (off + r) j =
  if decide (off <= j < off + n)
  then data !! (r * n + (j - off))
  else Some f0.
Proof.
  intros blocks off Hblocks Hr Hj.
  assert (length data = n * n) as Hdata.
  { unfold blocks in Hblocks. apply Forall_app in Hblocks as [_ Hb].
    by apply Forall_cons in Hb as [Hb _]. }
  assert (off + n <= sum_list (map fst blocks)) as Hoff.
  { unfold blocks, off. rewrite map_app, sum_list_append. simpl. lia. }
  assert (np_block_diag f0 blocks =
          NdArray [sum_list (map fst blocks); sum_list (map fst blocks)]
            (concat (block_diag_rows f0 (sum_list (map fst blocks)) 0 blocks)))
    as ->.
  { unfold blocks. by destruct before. }
  unfold entry2d. cbn [nd_shape nd_data].
  rewrite decide_True by lia.
  rewrite concat_rows_lookup by (try done; by apply block_diag_rows_widths).
  unfold blocks at 2. fold off.
  rewrite (block_diag_rows_lookup _ 0 before n data after r Hr).
  cbn [mbind option_bind]. fold off. simpl.
  assert (length (take n (drop (r * n) data)) = n) as Hchunk.
  { rewrite length_take, length_drop. nia. }
  destruct (decide (off <= j < off + n)) as [Hin|Hout].
  - rewrite lookup_app_r by (rewrite length_replicate; lia).
    rewrite length_replicate.
    rewrite lookup_app_l by lia.
    rewrite lookup_take_lt by lia. rewrite lookup_drop. done.
  - destruct (decide (j < off)) as [Hlt|Hge].
    + rewrite lookup_app_l by (rewrite length_replicate; lia).
      by apply lookup_replicate_2.
    + rewrite lookup_app_r by (rewrite length_replicate; lia).
      rewrite length_replicate.
      rewrite lookup_app_r by lia. rewrite Hchunk.
      apply lookup_replicate_2. lia.
Qed.

(** X6.  The matrix [flatten2d] returns for arrays of the doubled
    registered shapes is square, of the registered size, and block
    diagonal: in a row that belongs to the key [k], the entries in the
    columns of [k] are the entries of the corresponding row of the array
    supplied for [k], reshaped to a square, and every other entry of the
    row is zero. *)
Theorem flatten2d_is_block_diagonal before k s after values v r j :
  let items := before ++ (k, s) :: after in
  let off := sum_list (item_sizes before) in
  respects2d values items ->
  values !! k = Some v ->
  r < np_prod s ->
  j < sum_list (item_sizes items) ->
  exists M,
    flatten2d f0 (FlattenArrays_init items) values = Ok M /\
    nd_shape M = [sum_list (item_sizes items); sum_list (item_sizes items)] /\
    entry2d M (off + r) j =
      if decide (off <= j < off + np_prod s)
      then np_ravel v !! (r * np_prod s + (j - off))
      else Some f0.
Proof.
  intros items off Hresp Hv Hr Hj.
  set (block := fun ks : string * list nat =>
                  (np_prod ks.2, lookup_ravel values ks.1)).
  assert (forall l, map fst (map block l) = item_sizes l) as Hsizes.
  { intros l. unfold item_sizes. by rewrite <- list_fmap_compose. }
  assert (Forall (fun b : nat * list A => length b.2 = b.1 * b.1)
                 (map block items)) as Hall.
  { apply Forall_forall. intros b Hin.
    apply list_elem_of_fmap in Hin as ([k' s'] & -> & Hin). simpl.
    by rewrite (lookup_ravel_length2d values items k' s' Hresp Hin). }
  assert (block (k, s) = (np_prod s, np_ravel v)) as Hb.
  { unfold block, lookup_ravel. simpl. by rewrite Hv. }
  eexists. split; [by apply flatten2d_respects2d|].
  fold block. unfold items in *. rewrite map_app in *. cbn [map] in *.
  rewrite Hb in *. split.
  - assert (forall bs : list (nat * list A), bs <> [] ->
              nd_shape (np_block_diag f0 bs) =
              [sum_list (map fst bs); sum_list (map fst bs)]) as Hshape
      by (by intros [|??]).
    rewrite Hshape by (by destruct before).
    rewrite map_app. cbn [map fst]. rewrite !Hsizes.
    unfold item_sizes. by rewrite map_app.
  - unfold off. rewrite <- (Hsizes before).
    apply block_diag_entries; [done..|].
    rewrite map_app. cbn [map fst]. rewrite !Hsizes.
    unfold item_sizes in *. by rewrite map_app in Hj.
Qed.

End Flatten2dFacts.

(** ** [prod] and [from_arrays] *)

Section ProdFacts.
Context {M : Type} (mul : M -> M -> M) (e : M).
Hypothesis mul_assoc : forall x y z, mul x (mul y z) = mul (mul x y) z.
Hypothesis mul_e_l : forall x, mul e x = x.
Hypothesis mul_e_r : forall x, mul x e = x.

Lemma foldl_mul_from a (l : list M) :
  foldl mul a l = mul a (foldl mul e l).
Proof using mul_assoc mul_e_l mul_e_r.
  revert a. induction l as [|x l IH]; intros a; simpl.
  - by rewrite mul_e_r.
  - rewrite (IH (mul a x)), (IH (mul e x)), mul_e_l. by rewrite mul_assoc.
Qed.

(** X7.  For an associative operation with a two-sided unit [e]:
    [prod] of a concatenation started at [e] is the product of the
    [prod]s of the two parts; without a start value the first element is
    the start; and the empty iterable without a start value is a
    [TypeError]. *)
Theorem prod_of_concatenation (xs ys : list M) x :
  prod mul (xs ++ ys) [e] =
    (let* p := prod mul xs [e] in
     let* q := prod mul ys [e] in Ok (mul p q)) /\
  prod mul (x :: xs) [] = prod mul xs [x] /\
  prod mul ([] : list M) [] = Raise TypeError.
Proof using mul_assoc mul_e_l mul_e_r.
  repeat split. unfold prod, functools_reduce. cbn [Py.bind].
  by rewrite foldl_app, foldl_mul_from.
Qed.

End ProdFacts.

Section FromArraysFacts.
Context {A : Type}.

(** X8.  [from_arrays] hands the shapes to the constructor as keyword
    arguments, which has the single parameter [dict_]: the call returns
    only when it is given exactly one array, under the name [dict_], and
    that array is a scalar; and the instance it returns then has no
    registered key at all. *)
Theorem from_arrays_registers_nothing (arrays : list (string * pyval A)) :
  (is_ok (from_arrays arrays) = true <->
     exists v, arrays = [("dict_"%string, v)] /\ np_shape v = []) /\
  (forall fa, from_arrays arrays = Ok fa -> fa_items fa = []).
Proof.
  unfold from_arrays, bind_dict_.
  destruct arrays as [|[k v] [|kv arrays]]; simpl.
  - split; [|done]. split; [done|]. by intros (v & Hv & _).
  - case_decide as Hk; simpl.
    + unfold dict_update_tuple. destruct (np_shape v) as [|d s] eqn:Hs; simpl.
      * split; [|by intros fa [= <-]].
        split; [|done]. intros _. exists v. by subst k.
      * split; [|done]. split; [done|].
        intros (v' & [= _ <-] & Hv'). congruence.
    + split; [|done]. split; [done|]. intros (v' & [= -> _] & _). done.
  - split; [|done]. split; [done|]. by intros (v' & Hv & _).
Qed.

End FromArraysFacts.

(** ** [propagate_uncertainty]: rejected ranks, and the shape returned *)

Section PropagateMoreFacts.
Context {F : Type} (f0 : F) (fadd fmul : F -> F -> F).

(** X9.  A covariance with an odd number of axes is rejected by the
    assertion of [propagate_uncertainty], whatever the Jacobian: its
    leading and trailing halves cannot have the same shape. *)
Theorem propagate_uncertainty_rejects_odd_rank (cov : pyval F)
    (jac : ndarray F) :
  length (np_shape cov) mod 2 = 1 ->
  propagate_uncertainty f0 fadd fmul cov jac = Raise AssertionError.
Proof.
  intros Hodd. unfold propagate_uncertainty.
  rewrite decide_False; [done|]. intros [_ Heq].
  apply (f_equal length) in Heq.
  rewrite length_take, length_drop in Heq. unfold np_shape in Hodd.
  pose proof (Nat.div_mod_eq (length (nd_shape (np_asanyarray cov))) 2).
  lia.
Qed.

Lemma np_dot_shapes (a b : ndarray F) n m p :
  nd_shape a = [n; m] -> nd_shape b = [m; p] ->
  exists data, np_dot f0 fadd fmul a b = Ok (NdArray [n; p] data) /\
               length data = n * p.
Proof.
  intros Ha Hb. unfold np_dot. rewrite Ha, Hb, decide_True by done.
  eexists. split; [done|]. apply tabulate2_length.
Qed.

Lemma multi_dot3_shapes (a b c : ndarray F) n m :
  nd_shape a = [n; m] -> nd_shape b = [m; m] -> nd_shape c = [m; n] ->
  exists data, multi_dot3 f0 fadd fmul a b c = Ok (NdArray [n; n] data) /\
               length data = n * n.
Proof.
  intros Ha Hb Hc. unfold multi_dot3. rewrite Ha, Hc. case_decide.
  - destruct (np_dot_shapes a b n m m Ha Hb) as (ab & -> & _). cbn [Py.bind].
    by apply (np_dot_shapes _ c n m n).
  - destruct (np_dot_shapes b c m m n Hb Hc) as (bc & -> & _). cbn [Py.bind].
    by apply (np_dot_shapes a _ n m n).
Qed.

(** X10.  For a well-formed covariance of shape [s + s] and a
    well-formed Jacobian of shape [d + s], [propagate_uncertainty]
    returns an array of shape [d + d], holding the square of the number
    of elements of [d]. *)
Theorem propagate_uncertainty_returns_det_shape (cov : pyval F)
    (jac : ndarray F) (d s : list nat) :
  pyval_wf cov -> np_shape cov = s ++ s ->
  nd_wf jac -> nd_shape jac = d ++ s ->
  exists data,
    propagate_uncertainty f0 fadd fmul cov jac = Ok (NdArray (d ++ d) data) /\
    length data = np_prod d * np_prod d.
Proof.
  intros Hcwf Hcs Hjwf Hjs. unfold propagate_uncertainty.
  unfold pyval_wf, nd_wf, np_shape in *.
  set (c := np_asanyarray cov) in *.
  rewrite Hcs, Hjs. rewrite !length_app.
  replace (length s + length s) with (length s * 2) by lia.
  rewrite Nat.div_mul by done.
  replace (Z.of_nat (length d + length s) - Z.of_nat (length s))%Z
    with (Z.of_nat (length d)) by lia.
  assert (slice_bound (length d + length s) (Z.of_nat (length d)) = length d)
    as Hbound.
  { unfold slice_bound. destruct (Z.ltb_spec (Z.of_nat (length d)) 0); lia. }
  unfold tuple_upto, tuple_from. rewrite !length_app, Hbound.
  rewrite !take_app_length, !drop_app_length.
  rewrite decide_True by done.
  rewrite Hcs, np_prod_app in Hcwf. rewrite Hjs, np_prod_app in Hjwf.
  unfold nd_reshape at 1. rewrite decide_True by (simpl; lia).
  cbn [Py.bind]. unfold nd_reshape at 1.
  rewrite decide_True by (simpl; lia). cbn [Py.bind].
  set (cov2d := NdArray [np_prod s; np_prod s] (nd_data c)).
  set (jac2d := NdArray [np_prod d; np_prod s] (nd_data jac)).
  destruct (multi_dot3_shapes jac2d cov2d (nd_transpose f0 jac2d)
              (np_prod d) (np_prod s)) as (data & -> & Hlen); try done.
  cbn [Py.bind]. exists data. split; [|done].
  apply nd_reshape_same. cbn [nd_data]. by rewrite np_prod_app.
Qed.

End PropagateMoreFacts.

(** ** [inv_beta_suffstats] when the iteration stays non-negative *)

Section SpecialMoreFacts.
Context {F : Type}.
Context (is_neg : F -> bool) (of_Q : Q -> F).
Context (fneg : F -> F) (fadd fsub fdiv fmax : F -> F -> F).
Context (fexp digamma trigamma : F -> F).
Context (linalg_solve : (F * F) * (F * F) -> F * F -> res (F * F)).

(** X11.  When the five Newton-Raphson iterations end without a
    negative entry, [inv_beta_suffstats] emits no warning and returns
    the values of the iteration, [a] and [b] both in the shape of
    [lnX]. *)
Theorem inv_beta_suffstats_without_warning (lnX ln1X : pyval F) ab :
  pyval_wf lnX ->
  beta_newton of_Q fneg fadd fsub fdiv fmax fexp digamma trigamma
              linalg_solve lnX ln1X = Ok ab ->
  Forall (fun r => is_neg r.1 = false /\ is_neg r.2 = false) ab ->
  exists a b,
    inv_beta_suffstats is_neg of_Q fneg fadd fsub fdiv fmax fexp digamma
                       trigamma linalg_solve lnX ln1X = Ok ([], (a, b)) /\
    np_ravel a = map fst ab /\ np_ravel b = map snd ab /\
    np_shape a = np_shape lnX /\ np_shape b = np_shape lnX.
Proof.
  intros Hwf Hnewton Hall.
  pose proof (beta_newton_length _ _ _ _ _ _ _ _ _ _ _ _ _ Hnewton) as Hlen.
  assert (existsb (fun r => is_neg r.1 || is_neg r.2) ab = false) as Hany.
  { clear -Hall. induction Hall as [|r ab [H1 H2] _ IH]; [done|].
    simpl. by rewrite H1, H2, IH. }
  unfold inv_beta_suffstats. rewrite Hnewton. cbn [Py.bind]. rewrite Hany.
  unfold pyval_wf, nd_wf in Hwf. unfold np_ravel in Hlen.
  rewrite Hwf in Hlen. fold (np_shape lnX) in Hlen.
  destruct (np_shape lnX) as [|d s] eqn:Hshape.
  - simpl in Hlen. destruct ab as [|r [|r' ab]]; simpl in Hlen; try lia.
    by exists (PyScalar r.1), (PyScalar r.2).
  - cbn [is_nonempty]. unfold nd_reshape. cbn [nd_data].
    rewrite !length_map, !decide_True by done. cbn [Py.bind].
    by eexists _, _.
Qed.

(** X12.  [inv_beta_suffstats] raises [ValueError] when its two
    arguments do not hold the same number of elements: they cannot be
    put side by side. *)
Theorem inv_beta_suffstats_rejects_unequal_sizes (lnX ln1X : pyval F) :
  length (np_ravel lnX) <> length (np_ravel ln1X) ->
  inv_beta_suffstats is_neg of_Q fneg fadd fsub fdiv fmax fexp digamma
                     trigamma linalg_solve lnX ln1X = Raise ValueError.
Proof.
  intros Hne. unfold inv_beta_suffstats, beta_newton, np_c_.
  by rewrite decide_False.
Qed.

End SpecialMoreFacts.

(** ** The bounds handed to the optimiser *)

Section BoundsFacts.
Context {B : Type}.
Implicit Types (kwargs : list (string * list nat)).
Implicit Types (d : gmap string (list B)).

Lemma offsets_from_lookup acc (l : list nat) i n :
  l !! i = Some n ->
  offsets_from acc l !! i =
  Some (acc + sum_list (take i l), acc + sum_list (take i l) + n).
Proof.
  revert acc i. induction l as [|x l IH]; intros acc i Hi; [done|].
  destruct i as [|i]; simpl in *.
  - inversion Hi. f_equal. f_equal; lia.
  - rewrite (IH _ _ Hi). f_equal. f_equal; lia.
Qed.

Lemma bounds_per_key kwargs d (bound_of : string -> B) :
  (forall k s, (k, s) ∈ kwargs -> d !! k = Some [bound_of k]) ->
  comprehension
    (fun ks : string * list nat =>
       match d !! ks.1 with
       | None => Raise KeyError
       | Some support => Ok (concat (map (replicate (np_prod ks.2)) support))
       end) kwargs =
  Ok (map (fun ks => replicate (np_prod ks.2) (bound_of ks.1)) kwargs).
Proof.
  intros Hd. apply comprehension_map. intros [k s] Hin. simpl.
  rewrite (Hd k s Hin). simpl. by rewrite app_nil_r.
Qed.

Lemma bounds_blocks_lookup kwargs (bound_of : string -> B) i k s j :
  kwargs !! i = Some (k, s) -> j < np_prod s ->
  concat (map (fun ks => replicate (np_prod ks.2) (bound_of ks.1)) kwargs)
    !! (sum_list (take i (item_sizes kwargs)) + j) = Some (bound_of k).
Proof.
  revert i. induction kwargs as [|[k' s'] kwargs IH]; intros i Hi Hj; [done|].
  destruct i as [|i]; simpl in *.
  - inversion Hi; subst. rewrite lookup_app_l by (by rewrite length_replicate).
    by apply lookup_replicate_2.
  - rewrite lookup_app_r by (rewrite length_replicate; lia).
    rewrite length_replicate.
    replace (np_prod s' + sum_list (take i (item_sizes kwargs)) + j
             - np_prod s')
      with (sum_list (take i (item_sizes kwargs)) + j) by lia.
    by apply IH.
Qed.

Lemma bounds_blocks_length kwargs (bound_of : string -> B) :
  length (concat (map (fun ks => replicate (np_prod ks.2) (bound_of ks.1))
                      kwargs)) = sum_list (item_sizes kwargs).
Proof.
  induction kwargs as [|[k s] kwargs IH]; [done|]. simpl.
  by rewrite length_app, length_replicate, IH.
Qed.

(** X13.  When [bounds] gives every variable of a non-empty [kwargs]
    exactly one pair, the list kept in [self.bounds] has one entry per
    element of the flattened parameter vector, and at every position of
    the slice [inds] assigns to a variable stands the pair of that
    variable. *)
Theorem bounds_follow_the_flattened_vector kwargs d (bound_of : string -> B) :
  kwargs <> [] ->
  (forall k s, (k, s) ∈ kwargs -> d !! k = Some [bound_of k]) ->
  exists bs,
    OptFactor_bounds kwargs (Some d) = Ok (BoundsList bs) /\
    fa_size (FlattenArrays_init kwargs) = Ok (length bs) /\
    forall i k s i0 i1 p,
      kwargs !! i = Some (k, s) ->
      inds (FlattenArrays_init kwargs) !! i = Some (i0, i1) ->
      i0 <= p < i1 ->
      bs !! p = Some (bound_of k).
Proof.
  intros Hne Hd. eexists. split; [|split].
  - unfold OptFactor_bounds. rewrite decide_False.
    + by rewrite (bounds_per_key kwargs d bound_of Hd).
    + intros ->. destruct kwargs as [|[k s] kwargs]; [done|].
      specialize (Hd k s (list_elem_of_here _ _)).
      by rewrite lookup_empty in Hd.
  - rewrite bounds_blocks_length. unfold fa_size.
    cbn [splits FlattenArrays_init]. unfold np_cumsum.
    rewrite cumsum_from_last by (by destruct kwargs). done.
  - intros i k s i0 i1 p Hi Hind Hp. rewrite inds_init in Hind.
    rewrite (offsets_from_lookup 0 (item_sizes kwargs) i (np_prod s)) in Hind.
    + inversion Hind; subst. simpl in Hp.
      replace p with (sum_list (take i (item_sizes kwargs))
                      + (p - sum_list (take i (item_sizes kwargs)))) by lia.
      eapply bounds_blocks_lookup; [done|lia].
    + unfold item_sizes. by rewrite list_lookup_fmap, Hi.
Qed.

(** X14.  Whenever the list of bounds is built, it holds, for every
    variable, one entry per pair of its support and per element of its
    shape: a variable whose support has several pairs contributes more
    entries than it has elements in the flattened vector. *)
Theorem bounds_count_one_entry_per_pair_and_element kwargs d bs :
  OptFactor_bounds kwargs (Some d) = Ok (BoundsList bs) ->
  length bs =
  sum_list (map (fun ks => length (default [] (d !! ks.1)) * np_prod ks.2)
                kwargs).
Proof.
  unfold OptFactor_bounds. case_decide; [done|].
  destruct (comprehension _ kwargs) as [per_key|] eqn:Hc; [|done].
  cbn [Py.bind]. intros Hbs. inversion Hbs; subst. clear Hbs.
  revert per_key Hc. induction kwargs as [|[k s] kwargs IH];
    intros per_key Hc; simpl in Hc.
  - by inversion Hc.
  - destruct (d !! k) as [support|] eqn:Hk; [|done]. cbn [Py.bind] in Hc.
    destruct (comprehension _ kwargs) as [rest|] eqn:Hrest; [|done].
    cbn [Py.bind] in Hc. inversion Hc; subst. simpl.
    rewrite Hk, length_app, (IH rest) by done. simpl. f_equal.
    clear. induction support as [|b support IH]; [done|]. simpl.
    by rewrite length_app, length_replicate, IH.
Qed.

End BoundsFacts.

(** ** [from_approx]: free and fixed variables *)

Section FromApproxFacts.
Context {F B Dist : Type}.
Context (model_dist : string -> Dist).
Context (isinstance_FixedMessage : Dist -> bool).
Context (dist_mean : Dist -> pyval F) (dist_shape : Dist -> list nat).
Context (dist_support : Dist -> list B).

Local Abbreviation is_fixed :=
  (fun v => isinstance_FixedMessage (model_dist v)).
Local Abbreviation loop :=
  (from_approx_loop model_dist isinstance_FixedMessage dist_mean dist_shape
                    dist_support).

Lemma dict_setitem_new {T : Type} k (v : T) (d : list (string * T)) :
  k ∉ map fst d -> dict_setitem k v d = d ++ [(k, v)].
Proof.
  induction d as [|[k' v'] d IH]; intros Hk; [done|]. simpl in *.
  apply not_elem_of_cons in Hk as [Hne Hk].
  rewrite decide_False by done. by rewrite IH.
Qed.

Lemma from_approx_loop_spec variables kwargs fixed_kws bounds :
  NoDup variables ->
  (forall v, v ∈ variables -> v ∉ map fst kwargs) ->
  (loop variables kwargs fixed_kws bounds).1.1 =
    kwargs ++ map (fun v => (v, dist_shape (model_dist v)))
                  (filter (fun v => is_fixed v = false) variables) /\
  (forall v,
     (loop variables kwargs fixed_kws bounds).1.2 !! v =
     if decide (v ∈ variables /\ is_fixed v = true)
     then Some (dist_mean (model_dist v)) else fixed_kws !! v) /\
  (forall v,
     (loop variables kwargs fixed_kws bounds).2 !! v =
     if decide (v ∈ variables /\ is_fixed v = false)
     then Some (dist_support (model_dist v)) else bounds !! v).
Proof.
  revert kwargs fixed_kws bounds.
  induction variables as [|x variables IH]; intros kwargs fixed_kws bounds
    Hnd Hnew.
  { simpl. rewrite app_nil_r. repeat split; intros v;
      rewrite decide_False; try done; intros [Hin _];
      by apply not_elem_of_nil in Hin. }
  apply NoDup_cons in Hnd as [Hx Hnd]. cbn [from_approx_loop].
  rewrite filter_cons.
  destruct (isinstance_FixedMessage (model_dist x)) eqn:Hfix.
  - destruct (IH kwargs (<[x := dist_mean (model_dist x)]> fixed_kws) bounds
                Hnd) as (Hk & Hf & Hb).
    { intros v Hv. apply Hnew. by apply list_elem_of_further. }
    rewrite decide_False by (simpl; rewrite ?Hfix; done).
    split; [done|]. split; intros v.
    + rewrite Hf. destruct (decide (v = x)) as [->|Hne].
      * rewrite decide_False by (intros [? _]; done).
        rewrite lookup_insert_eq, decide_True; [done|].
        split; [apply list_elem_of_here|]. simpl. rewrite ?Hfix. done.
      * rewrite lookup_insert_ne by done.
        repeat case_decide; try done.
        -- exfalso. destruct H0. destruct H as [Hin Hfr]. split; [|done].
           by apply list_elem_of_further.
        -- exfalso. destruct H. destruct H0 as [Hin Hfr]. split; [|done].
           apply elem_of_cons in Hin as [?|?]; done.
    + rewrite Hb. repeat case_decide; try done.
      * exfalso. destruct H0. destruct H as [Hin Hfr]. split; [|done].
        by apply list_elem_of_further.
      * exfalso. destruct H. destruct H0 as [Hin Hfr]. split; [|done].
        apply elem_of_cons in Hin as [->|?]; [|done].
        simpl in Hfr. rewrite ?Hfix in Hfr. done.
  - rewrite dict_setitem_new by (apply Hnew, list_elem_of_here).
    destruct (IH (kwargs ++ [(x, dist_shape (model_dist x))]) fixed_kws
                 (<[x := dist_support (model_dist x)]> bounds) Hnd)
      as (Hk & Hf & Hb).
    { intros v Hv. rewrite map_app. simpl. intros Hin.
      apply elem_of_app in Hin as [Hin|Hin].
      - by apply (Hnew v (list_elem_of_further _ _ _ Hv)).
      - apply list_elem_of_singleton in Hin. by subst. }
    rewrite decide_True by (simpl; rewrite ?Hfix; done).
    split; [|split; intros v].
    + rewrite Hk, <- app_assoc. done.
    + rewrite Hf. repeat case_decide; try done.
      * exfalso. destruct H0. destruct H as [Hin Hfr]. split; [|done].
        by apply list_elem_of_further.
      * exfalso. destruct H. destruct H0 as [Hin Hfr]. split; [|done].
        apply elem_of_cons in Hin as [->|?]; [|done].
        simpl in Hfr. rewrite ?Hfix in Hfr. done.
    + rewrite Hb. destruct (decide (v = x)) as [->|Hne].
      * rewrite decide_False by (intros [? _]; done).
        rewrite lookup_insert_eq, decide_True; [done|].
        split; [apply list_elem_of_here|]. simpl. rewrite ?Hfix. done.
      * rewrite lookup_insert_ne by done.
        repeat case_decide; try done.
        -- exfalso. destruct H0. destruct H as [Hin Hfr]. split; [|done].
           by apply list_elem_of_further.
        -- exfalso. destruct H. destruct H0 as [Hin Hfr]. split; [|done].
           apply elem_of_cons in Hin as [?|?]; done.
Qed.

Lemma bounds_of_free_variables (d : gmap string (list B)) (free : list string) :
  (forall v, v ∈ free -> d !! v = Some (dist_support (model_dist v))) ->
  comprehension
    (fun ks : string * list nat =>
       match d !! ks.1 with
       | None => Raise KeyError
       | Some support => Ok (concat (map (replicate (np_prod ks.2)) support))
       end)
    (map (fun v => (v, dist_shape (model_dist v))) free) =
  Ok (map (fun v => concat (map (replicate (np_prod (dist_shape (model_dist v))))
                                (dist_support (model_dist v)))) free).
Proof.
  intros Hd. induction free as [|v free IH]; [done|]. simpl.
  rewrite (Hd v) by apply list_elem_of_here. cbn [Py.bind].
  rewrite IH; [done|]. intros w Hw. by apply Hd, list_elem_of_further.
Qed.

(** X15.  For pairwise distinct variables, [from_approx] called with
    no extra keyword always returns an optimiser with sign -1: its free
    variables are the variables whose distribution is not a
    [FixedMessage], in the order of the factor, registered with the
    shapes of their distributions; its fixed keywords are the means of
    the other variables; and its bounds are the empty dictionary when no
    variable is free, else the list built from the supports of the free
    variables. *)
Theorem from_approx_splits_free_and_fixed variables :
  NoDup variables ->
  exists opt b,
    from_approx model_dist isinstance_FixedMessage dist_mean dist_shape
                dist_support variables = Ok (opt, b, (-1)%Z) /\
    free_vars opt =
      filter (fun v => isinstance_FixedMessage (model_dist v) = false)
             variables /\
    fa_items (param_shapes opt) =
      map (fun v => (v, dist_shape (model_dist v))) (free_vars opt) /\
    (forall v,
       fixed_kws opt !! v =
       if decide (v ∈ variables /\
                  isinstance_FixedMessage (model_dist v) = true)
       then Some (dist_mean (model_dist v)) else None) /\
    match b with
    | BoundsNone => False
    | BoundsDict d => d = ∅ /\ free_vars opt = []
    | BoundsList l =>
        free_vars opt <> [] /\
        l = concat
              (map (fun v =>
                      concat (map (replicate
                                     (np_prod (dist_shape (model_dist v))))
                                  (dist_support (model_dist v))))
                   (free_vars opt))
    end.
Proof.
  intros Hnd.
  destruct (from_approx_loop_spec variables [] ∅ ∅ Hnd) as (Hk & Hf & Hb).
  { intros v _. apply not_elem_of_nil. }
  unfold from_approx.
  destruct (loop variables [] ∅ ∅) as [[kwargs fixed] bounds].
  cbn [fst snd] in Hk, Hf, Hb. simpl in Hk. subst kwargs.
  set (free := filter (fun v => is_fixed v = false) variables) in *.
  assert (forall v, v ∈ free ->
                    bounds !! v = Some (dist_support (model_dist v))) as Hsup.
  { intros v Hv. apply list_elem_of_filter in Hv as [Hfr Hin].
    rewrite Hb. by rewrite decide_True. }
  unfold OptFactor_bounds.
  destruct (decide (bounds = ∅)) as [->|Hne].
  - eexists _, _. split; [done|].
    assert (free = []) as Hnil.
    { destruct free as [|v free'] eqn:Hfree; [done|].
      specialize (Hsup v (list_elem_of_here _ _)).
      by rewrite lookup_empty in Hsup. }
    cbn [OptFactor_init free_vars param_shapes fa_items FlattenArrays_init
         fixed_kws].
    rewrite <- list_fmap_compose.
    replace (map (fst ∘ _) free) with free
      by (clear; induction free; simpl; congruence).
    by split_and!.
  - rewrite (bounds_of_free_variables bounds free Hsup). cbn [Py.bind].
    eexists _, _. split; [done|].
    cbn [OptFactor_init free_vars param_shapes fa_items FlattenArrays_init
         fixed_kws].
    rewrite <- list_fmap_compose.
    replace (map (fst ∘ _) free) with free
      by (clear; induction free; simpl; congruence).
    split_and!; try done.
    intros Hnil. apply Hne. apply map_eq. intros v.
      rewrite Hb, lookup_empty. rewrite decide_False; [done|].
      intros [Hin Hfr].
      assert (v ∈ free) as Hv by (apply list_elem_of_filter; done).
      rewrite Hnil in Hv. by apply not_elem_of_nil in Hv.
Qed.

End FromApproxFacts.

(** ** Where the optimiser starts *)

Section StartFacts.
Context {F : Type} (fneg : F -> F).
Context {Rng : Type} (sample : string -> Rng -> pyval F * Rng).
Context (minimize : Z -> ndarray F -> OptimizeResult F).
Implicit Types (d X : gmap string (pyval F)) (vars : list string).

Lemma get_random_start_loop_rng vars p0 d rng :
  (get_random_start_loop sample vars p0 d rng).2 =
  rng_after_draws sample (filter (fun v => d !! v = None) vars) rng.
Proof.
  revert p0 rng. induction vars as [|v vars IH]; intros p0 rng; [done|].
  cbn [get_random_start_loop]. rewrite filter_cons.
  destruct (d !! v) as [x|] eqn:Hv.
  - rewrite decide_False by done. apply IH.
  - rewrite decide_True by done. destruct (sample v rng) as [drawn rng'] eqn:Hs.
    rewrite IH. unfold rng_after_draws. simpl. by rewrite Hs.
Qed.

Lemma get_random_start_loop_lookup vars p0 d rng v :
  (v ∉ vars ->
   (get_random_start_loop sample vars p0 d rng).1 !! v = p0 !! v) /\
  (v ∈ vars ->
   is_Some ((get_random_start_loop sample vars p0 d rng).1 !! v)) /\
  (forall x, v ∈ vars -> d !! v = Some x ->
             (get_random_start_loop sample vars p0 d rng).1 !! v = Some x).
Proof.
  revert p0 rng. induction vars as [|v0 vars IH]; intros p0 rng.
  { split; [done|]. split; [|intros x]; intros Hin;
      by apply not_elem_of_nil in Hin. }
  cbn [get_random_start_loop].
  assert (exists val rng',
            (match d !! v0 with
             | Some x =>
                 get_random_start_loop sample vars (<[v0 := x]> p0) d rng
             | None =>
                 let '(drawn, rng) := sample v0 rng in
                 get_random_start_loop sample vars (<[v0 := drawn]> p0) d rng
             end) = get_random_start_loop sample vars (<[v0 := val]> p0) d rng'
            /\ (forall x, d !! v0 = Some x -> val = x)) as (val & rng' & -> & Hval).
  { destruct (d !! v0) as [x|].
    - exists x, rng. split; [done|]. by intros ? [= ->].
    - destruct (sample v0 rng) as [drawn rng']. by exists drawn, rng'. }
  destruct (IH (<[v0 := val]> p0) rng') as (Hout & Hin & Hsup).
  split; [|split].
  - intros Hv. apply not_elem_of_cons in Hv as [Hne Hv].
    by rewrite Hout, lookup_insert_ne.
  - intros Hv. destruct (decide (v ∈ vars)) as [Hv'|Hv']; [by apply Hin|].
    apply elem_of_cons in Hv as [->|]; [|done].
    rewrite Hout by done. rewrite lookup_insert_eq. by eexists.
  - intros x Hv Hx. destruct (decide (v ∈ vars)) as [Hv'|Hv'];
      [by apply Hsup|].
    apply elem_of_cons in Hv as [->|]; [|done].
    rewrite Hout by done. rewrite lookup_insert_eq. f_equal. by apply Hval.
Qed.

(** X16.  [get_random_start] draws a sample only for the free
    variables that [arrays_dict] lacks, in order; the start it returns
    has an entry for every free variable and for nothing else, and the
    entry of a supplied variable is the supplied value. *)
Theorem get_random_start_draws_only_for_missing self d rng v :
  (get_random_start sample self d rng).2 =
    rng_after_draws sample (filter (fun v => d !! v = None) (free_vars self))
                    rng /\
  (v ∉ free_vars self -> (get_random_start sample self d rng).1 !! v = None) /\
  (v ∈ free_vars self ->
   is_Some ((get_random_start sample self d rng).1 !! v)) /\
  (forall x, v ∈ free_vars self -> d !! v = Some x ->
             (get_random_start sample self d rng).1 !! v = Some x).
Proof.
  unfold get_random_start. split; [apply get_random_start_loop_rng|].
  destruct (get_random_start_loop_lookup (free_vars self) ∅ d rng v)
    as (Hout & Hin & Hsup).
  split; [|done]. intros Hv. by rewrite Hout.
Qed.

Lemma pop_free_vars_rng vars p0 d rng :
  (pop_free_vars sample vars p0 d rng).2 = rng_after_draws sample vars rng.
Proof.
  revert p0 d rng. induction vars as [|v vars IH]; intros p0 d rng; [done|].
  cbn [pop_free_vars]. unfold rng_after_draws. simpl.
  destruct (sample v rng) as [drawn rng']. apply IH.
Qed.

(** X17.  [maximise] draws a sample for every free variable, supplied
    or not, whether it then returns or raises: the default handed to
    [pop] is evaluated before the lookup. *)
Theorem maximise_draws_for_every_free_variable self st h :
  rng_of (maximise fneg sample minimize self st h).2 =
  rng_after_draws sample (free_vars self) (rng_of h).
Proof.
  unfold maximise.
  pose proof (pop_free_vars_rng (free_vars self) ∅ (arrays_dict_of h)
                                (rng_of h)) as Hrng.
  destruct (pop_free_vars sample (free_vars self) ∅ (arrays_dict_of h)
                          (rng_of h)) as [[p0 d] rng].
  by destruct (_minimise minimize self p0 (-1)).
Qed.




End StartFacts.

(** ** A factor whose variables are all fixed *)

Section AllFixedFacts.
Context {F B Dist : Type}.
Context (model_dist : string -> Dist).
Context (isinstance_FixedMessage : Dist -> bool).
Context (dist_mean : Dist -> pyval F) (dist_shape : Dist -> list nat).
Context (dist_support : Dist -> list B).
Context (fneg : F -> F).
Context {Rng : Type} (sample : string -> Rng -> pyval F * Rng).
Context (minimize : Z -> ndarray F -> OptimizeResult F).

Lemma from_approx_loop_all_fixed variables kwargs fixed_kws
    (bounds : gmap string (list B)) :
  Forall (fun v => isinstance_FixedMessage (model_dist v) = true) variables ->
  exists fixed_kws',
    from_approx_loop model_dist isinstance_FixedMessage dist_mean dist_shape
                     dist_support variables kwargs fixed_kws bounds =
    (kwargs, fixed_kws', bounds).
Proof.
  intros Hall. revert fixed_kws.
  induction Hall as [|v variables Hv _ IH]; intros fixed_kws.
  - by exists fixed_kws.
  - cbn [from_approx_loop]. rewrite Hv. apply IH.
Qed.

(** X19.  When every variable of the factor has a [FixedMessage],
    [from_approx] returns an optimiser with no free variable and the
    empty dictionary as bounds, and [maximise] on it always raises
    [ValueError], there being nothing to concatenate; the sign is left
    at -1 and nothing is drawn or popped. *)
Theorem from_approx_all_fixed_cannot_be_maximised variables :
  Forall (fun v => isinstance_FixedMessage (model_dist v) = true) variables ->
  exists opt,
    from_approx model_dist isinstance_FixedMessage dist_mean dist_shape
                dist_support variables = Ok (opt, BoundsDict ∅, (-1)%Z) /\
    forall st (h : heap F Rng),
      maximise fneg sample minimize opt st h =
      (Raise ValueError,
       {| arrays_dict_of := arrays_dict_of h; sign_of := (-1)%Z;
          rng_of := rng_of h |}).
Proof.
  intros Hall.
  destruct (from_approx_loop_all_fixed variables [] ∅ ∅ Hall) as [fixed Hloop].
  unfold from_approx. rewrite Hloop. eexists. split; [done|].
  intros st h. reflexivity.
Qed.

End AllFixedFacts.

(** ** The Laplace update as the source has it *)

Section NeverReturns.
Context {Approx Factor Delta Kws Rng : Type} `{Countable Factor}.
Context (laplace_factor_approx :
           Approx -> Factor -> Delta -> Kws -> Rng ->
           res (Approx * Status) * Rng).
Context (graph_factors : Approx -> list Factor).
Hypothesis never :
  forall m f d k rng, is_ok (laplace_factor_approx m f d k rng).1 = false.

Lemma step_from_yields_nothing self m fs rng :
  exists rng',
    step_from laplace_factor_approx self m fs rng = Exhausted rng' \/
    exists e, step_from laplace_factor_approx self m fs rng = Escapes e rng'.
Proof using never.
  destruct fs as [|f fs]; [by exists rng; left|]. cbn [step_from].
  pose proof (never m f (delta self) (opt_kws self) rng) as Hn.
  destruct (laplace_factor_approx m f (delta self) (opt_kws self) rng)
    as [[[a s]|e] rng']; [done|].
  exists rng'. right. by exists e.
Qed.

Lemma run_loop_records_nothing self m fs indices st rng :
  (run_loop laplace_factor_approx graph_factors self m fs indices st rng).1.2
  = st.
Proof using never.
  revert st rng. induction indices as [|i indices IH]; intros st rng; [done|].
  cbn [run_loop]. unfold step.
  destruct (step_from_yields_nothing self m (default (graph_factors m) fs)
                                     rng) as (rng' & [->|[e ->]]).
  - cbn [consume]. apply IH.
  - done.
Qed.

Lemma run_never_returns_when_no_update_does self m fs hist rng :
  is_ok (run laplace_factor_approx graph_factors self m fs hist rng).1.1
    = false /\
  (run laplace_factor_approx graph_factors self m fs hist rng).1.2 = hist.
Proof using never.
  unfold run. cbn [fst snd].
  pose proof (run_loop_records_nothing self m fs (seq 0 (n_iter self))
                {| history := hist; new_approx_of := None |} rng) as Hst.
  destruct (run_loop _ _ _ _ _ _ _ _) as [[oe st] rng'].
  cbn [fst snd] in *. subst st. split; [|done].
  unfold return_new_approx. cbn [fst snd new_approx_of]. by destruct oe.
Qed.

End NeverReturns.

Section LaplaceSourceFacts.
Context {F B Dist Rng : Type}.
Context {Approx Factor FactorApprox ModelDist Projection Delta Kws : Type}.
Context `{Countable Factor}.
Context (fneg : F -> F) (f0 : F) (fadd fmul : F -> F -> F).
Context (np_add : pyval F -> ndarray F -> res (pyval F)).
Context (factor_approximation : Approx -> Factor -> res FactorApprox).
Context (factor_variables : FactorApprox -> list string).
Context (model_dist : FactorApprox -> string -> Dist).
Context (isinstance_FixedMessage : Dist -> bool).
Context (dist_mean : Dist -> pyval F) (dist_shape : Dist -> list nat).
Context (dist_support : Dist -> list B).
Context (sample : FactorApprox -> string -> Rng -> pyval F * Rng).
Context (minimize : FactorApprox -> Z -> ndarray F -> OptimizeResult F).
Context (factor_call :
           FactorApprox -> gmap string (pyval F) ->
           res (F * gmap string (pyval F))).
Context (factor_jacobian :
           FactorApprox -> gmap string (pyval F) -> list string ->
           res (list ((string * string) * ndarray F))).
Context (project_mode : FactorApprox -> OptResult F -> res ModelDist).
Context (project :
           FactorApprox -> ModelDist -> Delta -> pyobj F ->
           res (Projection * Status)).
Context (approx_project :
           Approx -> Projection -> Status -> res (Approx * Status)).
Context (graph_factors : Approx -> list Factor).

Lemma find_factor_mode_with_cov_raises
    (sample' : string -> Rng -> pyval F * Rng)
    (minimize' : Z -> ndarray F -> OptimizeResult F)
    (factor_call' : gmap string (pyval F) -> res (F * gmap string (pyval F)))
    (factor_jacobian' :
       gmap string (pyval F) -> list string ->
       res (list ((string * string) * ndarray F)))
    opt st h :
  is_ok (find_factor_mode fneg sample' minimize' f0 fadd fmul np_add
           factor_call' factor_jacobian' opt true st h).1 = false.
Proof.
  unfold find_factor_mode.
  destruct (maximise fneg sample' minimize' opt st h) as [[res|e] h'];
    [|done].
  cbn [fst]. destruct (mode res) as [m| | |]; try done.
  destruct (factor_call' m) as [value|]; [|done]. cbn [Py.bind].
  destruct (factor_jacobian' _ _); [|done]. cbn [Py.bind].
  by rewrite update_det_cov_raises.
Qed.

(** Every path through [laplace_factor_approx] ends in an exception:
    the calls before [find_factor_mode] may raise, and
    [find_factor_mode] does. *)
Local Ltac by_the_missing_attribute :=
  unfold laplace_factor_approx;
  match goal with
  | |- context [factor_approximation ?m ?f] =>
      destruct (factor_approximation m f) as [?fa|?e]; [|done]
  end;
  destruct (from_approx _ _ _ _ _ _) as [[[?opt ?b] ?sign]|?e]; [|done];
  match goal with
  | |- context [find_factor_mode ?a1 ?a2 ?a3 ?a4 ?a5 ?a6 ?a7 ?a8 ?a9 ?o
                                 true ?st ?h] =>
      pose proof (find_factor_mode_with_cov_raises a2 a3 a8 a9 o st h);
      destruct (find_factor_mode a1 a2 a3 a4 a5 a6 a7 a8 a9 o true st h)
        as [[?res|?e] ?h']; done
  end.

(** X20.  [laplace_factor_approx], called as [step] calls it, never
    returns: whatever the factor approximation, the optimiser and the
    projections do, an exception escapes, at the latest the
    [AttributeError] of [find_factor_mode]. *)
Theorem laplace_factor_approx_never_returns
    (model_approx : Approx) (factor : Factor) (delta : Delta) (status : Kws)
    (rng : Rng) :
  is_ok (laplace_factor_approx fneg f0 fadd fmul np_add factor_approximation
           factor_variables model_dist isinstance_FixedMessage dist_mean
           dist_shape dist_support sample minimize factor_call
           factor_jacobian project_mode project approx_project
           model_approx factor delta status rng).1 = false.
Proof.
  by_the_missing_attribute.
Qed.

(** X21.  With the update of the source, [LaplaceOptimiser.run] never
    returns an approximation and leaves [history] as it found it,
    whatever the number of sweeps and the factors. *)
Theorem run_never_returns_nor_records
    (self : LaplaceOptimiser Delta Kws) (model_approx : Approx)
    (factors : option (list Factor)) (hist : gmap (nat * Factor) Approx)
    (rng : Rng) :
  let update :=
    laplace_factor_approx fneg f0 fadd fmul np_add factor_approximation
      factor_variables model_dist isinstance_FixedMessage dist_mean
      dist_shape dist_support sample minimize factor_call
      factor_jacobian project_mode project approx_project in
  is_ok (run update graph_factors self model_approx factors hist rng).1.1
    = false /\
  (run update graph_factors self model_approx factors hist rng).1.2 = hist.
Proof.
  intros update. apply run_never_returns_when_no_update_does.
  intros m f d k rng'. unfold update. by_the_missing_attribute.
Qed.

End LaplaceSourceFacts.

(** ** What [run] records in [history] *)

Section HistoryFacts.
Context {Approx Factor Delta Kws Rng : Type} `{Countable Factor}.
Context (laplace_factor_approx :
           Approx -> Factor -> Delta -> Kws -> Rng ->
           res (Approx * Status) * Rng).
Context (graph_factors : Approx -> list Factor).

Local Abbreviation sweep self i m fs rng st :=
  (consume i (step_from laplace_factor_approx self m fs rng) st).

Lemma sweep_frame self i m fs rng st j f :
  j <> i \/ f ∉ fs ->
  history (sweep self i m fs rng st).1.2 !! (j, f) = history st !! (j, f).
Proof.
  revert m rng st. induction fs as [|g fs IH]; intros m rng st Hout; [done|].
  cbn [step_from].
  destruct (laplace_factor_approx m g (delta self) (opt_kws self) rng)
    as [[[a s]|e] rng']; [|done].
  cbn [consume]. rewrite IH.
  - cbn [history]. apply lookup_insert_ne. intros [= -> ->].
    destruct Hout as [?|Hf]; [done|]. apply Hf, list_elem_of_here.
  - destruct Hout as [?|Hf]; [by left|]. right.
    by apply not_elem_of_cons in Hf as [_ ?].
Qed.

Lemma sweep_keeps self i m fs rng st key :
  is_Some (history st !! key) ->
  is_Some (history (sweep self i m fs rng st).1.2 !! key).
Proof.
  revert m rng st. induction fs as [|g fs IH]; intros m rng st Hkey; [done|].
  cbn [step_from].
  destruct (laplace_factor_approx m g (delta self) (opt_kws self) rng)
    as [[[a s]|e] rng']; [|done].
  cbn [consume]. apply IH. cbn [history].
  destruct (decide (key = (i, g))) as [->|Hne].
  - rewrite lookup_insert_eq. by eexists.
  - by rewrite lookup_insert_ne.
Qed.

Lemma sweep_records self i m fs rng st f :
  (sweep self i m fs rng st).1.1 = None -> f ∈ fs ->
  is_Some (history (sweep self i m fs rng st).1.2 !! (i, f)).
Proof.
  revert m rng st. induction fs as [|g fs IH]; intros m rng st Hnone Hf.
  { by apply not_elem_of_nil in Hf. }
  cbn [step_from] in *.
  destruct (laplace_factor_approx m g (delta self) (opt_kws self) rng)
    as [[[a s]|e] rng']; [|done].
  cbn [consume] in *. destruct (decide (f ∈ fs)) as [Hin|Hnin].
  - by apply IH.
  - apply elem_of_cons in Hf as [->|]; [|done].
    apply sweep_keeps. cbn [history]. rewrite lookup_insert_eq. by eexists.
Qed.

Lemma run_loop_frame self m fs indices st rng j f :
  j ∉ indices \/ f ∉ default (graph_factors m) fs ->
  history (run_loop laplace_factor_approx graph_factors self m fs indices
                    st rng).1.2 !! (j, f) = history st !! (j, f).
Proof.
  revert st rng. induction indices as [|i indices IH]; intros st rng Hout;
    [done|].
  cbn [run_loop]. unfold step.
  assert (j <> i \/ f ∉ default (graph_factors m) fs) as Hi.
  { destruct Hout as [Hj|?]; [left|by right]. intros ->.
    apply Hj, list_elem_of_here. }
  pose proof (sweep_frame self i m (default (graph_factors m) fs) rng st j f
                          Hi) as Hsweep.
  destruct (consume i _ st) as [[[e|] st'] rng']; cbn [fst snd] in *;
    [done|].
  rewrite IH; [done|]. destruct Hout as [Hj|?]; [left|by right].
  by apply not_elem_of_cons in Hj as [_ ?].
Qed.

Lemma run_loop_keeps self m fs indices st rng key :
  is_Some (history st !! key) ->
  is_Some (history (run_loop laplace_factor_approx graph_factors self m fs
                             indices st rng).1.2 !! key).
Proof.
  revert st rng. induction indices as [|i indices IH]; intros st rng Hkey;
    [done|].
  cbn [run_loop]. unfold step.
  pose proof (sweep_keeps self i m (default (graph_factors m) fs) rng st key
                          Hkey) as Hsweep.
  destruct (consume i _ st) as [[[e|] st'] rng']; cbn [fst snd] in *;
    [done|].
  by apply IH.
Qed.

Lemma run_loop_records self m fs indices st rng j f :
  (run_loop laplace_factor_approx graph_factors self m fs indices st
            rng).1.1 = None ->
  j ∈ indices -> f ∈ default (graph_factors m) fs ->
  is_Some (history (run_loop laplace_factor_approx graph_factors self m fs
                             indices st rng).1.2 !! (j, f)).
Proof.
  revert st rng. induction indices as [|i indices IH];
    intros st rng Hnone Hj Hf.
  { by apply not_elem_of_nil in Hj. }
  cbn [run_loop] in *. unfold step in *.
  pose proof (sweep_records self i m (default (graph_factors m) fs) rng st f)
    as Hsweep.
  destruct (consume i _ st) as [[[e|] st'] rng']; cbn [fst snd] in *;
    [done|].
  apply elem_of_cons in Hj as [->|Hj].
  - apply run_loop_keeps. by apply Hsweep.
  - by apply IH.
Qed.

(** X22.  Whatever the update does, [run] leaves untouched every
    entry of [history] whose sweep index is not below [n_iter] or whose
    factor is not among the factors swept; and when [run] returns,
    [history] holds an entry for every sweep index below [n_iter] and
    every factor swept. *)
Theorem run_records_every_sweep_and_nothing_else
    (self : LaplaceOptimiser Delta Kws) (model_approx : Approx)
    (factors : option (list Factor)) (hist : gmap (nat * Factor) Approx)
    (rng : Rng) (i : nat) (factor : Factor) :
  let outcome :=
    run laplace_factor_approx graph_factors self model_approx factors hist
        rng in
  (n_iter self <= i \/ factor ∉ default (graph_factors model_approx) factors ->
   outcome.1.2 !! (i, factor) = hist !! (i, factor)) /\
  (is_ok outcome.1.1 = true ->
   i < n_iter self -> factor ∈ default (graph_factors model_approx) factors ->
   is_Some (outcome.1.2 !! (i, factor))).
Proof.
  intros outcome. unfold outcome, run. cbn [fst snd]. split.
  - intros Hout.
    rewrite run_loop_frame; [done|]. destruct Hout as [Hi|?]; [left|by right].
    rewrite elem_of_seq. lia.
  - intros Hok Hi Hf. apply run_loop_records; [|apply elem_of_seq; lia|done].
    unfold return_new_approx in Hok.
    by destruct (run_loop _ _ _ _ _ _ _ _).1.1.
Qed.

End HistoryFacts.

(** ** [flatten] after [unflatten] *)

Section UnflattenFacts.
Context {A : Type}.
Implicit Types (items : list (string * list nat)).
Implicit Types (X : gmap string (pyval A)).

(** A vector of the registered size is the flattening of some mapping
    of the registered shapes. *)
Lemma vector_splits_into_arrays items (data : list A) :
  NoDup (map fst items) ->
  length data = sum_list (item_sizes items) ->
  exists X, respects [] X items /\ flat_data X items = data.
Proof.
  revert data. induction items as [|[k s] items IH]; intros data Hnd Hlen.
  { exists ∅. split; [by constructor|]. by destruct data. }
  simpl in Hnd, Hlen. apply NoDup_cons in Hnd as [Hk Hnd].
  destruct (IH (drop (np_prod s) data) Hnd) as (X & HX & Hflat).
  { rewrite length_drop. lia. }
  exists (<[k := PyArr (NdArray s (take (np_prod s) data))]> X).
  assert (forall ks, ks ∈ items ->
            (<[k := PyArr (NdArray s (take (np_prod s) data))]> X) !! ks.1
            = X !! ks.1) as Hother.
  { intros ks Hin. apply lookup_insert_ne. intros ->. apply Hk.
    apply list_elem_of_fmap. by exists ks. }
  split.
  - constructor.
    + eexists. split; [apply lookup_insert_eq|]. simpl.
      split; [by rewrite app_nil_r|].
      unfold pyval_wf, nd_wf. simpl. rewrite length_take. lia.
    + unfold respects in *. rewrite Forall_forall in *. intros ks Hin.
      rewrite (Hother ks Hin). by apply HX.
  - unfold flat_data in *. simpl. unfold lookup_ravel at 1.
    rewrite lookup_insert_eq. simpl.
    rewrite <- (take_drop (np_prod s) data) at 2. f_equal.
    rewrite <- Hflat. f_equal. apply map_ext_in. intros ks Hin.
    unfold lookup_ravel. rewrite (Hother ks); [done|].
    by apply list_elem_of_In.
Qed.

(** X23.  For a registry of pairwise distinct keys, at least one, and
    any vector of the registered size, [unflatten] returns a mapping
    whose keys are the registered keys, each with its registered shape,
    and [flatten] of that mapping is the vector again. *)
Theorem flatten_unflatten_roundtrip items (data : list A) :
  items <> [] ->
  NoDup (map fst items) ->
  length data = sum_list (item_sizes items) ->
  exists X,
    unflatten (FlattenArrays_init items) (PyArr (NdArray [length data] data))
              None = Ok X /\
    flatten (FlattenArrays_init items) X = Ok (NdArray [length data] data) /\
    (forall k, is_Some (X !! k) <-> k ∈ map fst items) /\
    (forall k s v, (k, s) ∈ items -> X !! k = Some v -> np_shape v = s).
Proof.
  intros Hne Hnd Hlen.
  destruct (vector_splits_into_arrays items data Hnd Hlen)
    as (X0 & HX0 & Hflat).
  set (X := list_to_map (map (unflattened_entry [] X0) items)
         : gmap string (pyval A)).
  assert (map fst (map (unflattened_entry [] X0) items) = map fst items)
    as Hkeys.
  { rewrite <- list_fmap_compose. done. }
  assert (forall k s, (k, s) ∈ items ->
            exists v w, X0 !! k = Some v /\ X !! k = Some w /\
                        np_array_equal w v) as Hentry.
  { intros k s Hin.
    destruct (unflattened_lookup [] X0 items k s Hnd HX0 Hin)
      as (v & w & Hv & Hw & Heq & _). by exists v, w. }
  assert (respects [] X items) as HX.
  { unfold respects in *. rewrite Forall_forall in *. intros [k s] Hin.
    destruct (Hentry k s Hin) as (v & w & Hv & Hw & Hsh & Hrv).
    destruct (HX0 _ Hin) as (v' & Hv' & Hs & Hwf). simpl in *.
    assert (v' = v) as -> by congruence.
    exists w. split; [done|]. split; [congruence|].
    unfold pyval_wf, nd_wf in *. unfold np_shape, np_ravel in *. congruence. }
  assert (flat_data X items = data) as HflatX.
  { rewrite <- Hflat. unfold flat_data. f_equal. apply map_ext_in.
    intros [k s] Hin. apply list_elem_of_In in Hin.
    destruct (Hentry k s Hin) as (v & w & Hv & Hw & Hsh & Hrv).
    unfold lookup_ravel. simpl. by rewrite Hv, Hw. }
  exists X. split_and!.
  - unfold X. rewrite <- (unflatten_blocks [] X0 items HX0).
    rewrite Hflat, Hlen. done.
  - rewrite flatten_match by
      eauto using respects_supplies, respects_not_mismatched.
    by rewrite HflatX.
  - intros k. split.
    + intros [v Hv]. rewrite <- Hkeys. apply list_elem_of_fmap.
      exists (k, v). split; [done|]. by apply elem_of_list_to_map_2.
    + intros Hin. apply list_elem_of_fmap in Hin as ([k' s] & -> & Hin).
      destruct (Hentry k' s Hin) as (v & w & _ & Hw & _). by exists w.
  - intros k s v Hin Hv. unfold respects in HX. rewrite Forall_forall in HX.
    destruct (HX _ Hin) as (w & Hw & Hs & _). simpl in *.
    rewrite app_nil_r in Hs. congruence.
Qed.

End UnflattenFacts.

(** ** [_parse_result] on a well-shaped report *)

Section ParseResultFacts.
Context {F : Type} (fneg : F -> F).
Context {Rng : Type} (sample : string -> Rng -> pyval F * Rng).
Context (minimize : Z -> ndarray F -> OptimizeResult F).
Implicit Types (items : list (string * list nat)).









End ParseResultFacts.

(** ** The further properties on the concrete instances *)

Lemma respects_demo_vectors : respects [] DemoMore.vectors DemoMore.items.
Proof.
  repeat apply Forall_cons_2; [| |apply Forall_nil_2].
  - eexists. split; [reflexivity|]. by split.
  - eexists. split; [reflexivity|]. by split.
Qed.

Lemma respects2d_demo_blocks : respects2d DemoMore.blocks DemoMore.items.
Proof.
  repeat apply Forall_cons_2; [| |apply Forall_nil_2].
  - eexists. split; [reflexivity|]. by split.
  - eexists. split; [reflexivity|]. by split.
Qed.


Lemma size_is_total_and_length_of_flatten_witness :
  fa_size (FlattenArrays_init DemoMore.items) =
    Ok (sum_list (item_sizes DemoMore.items)) /\
  exists flat,
    flatten (FlattenArrays_init DemoMore.items) DemoMore.vectors = Ok flat /\
    nd_shape flat = [sum_list (item_sizes DemoMore.items)] /\
    length (nd_data flat) = sum_list (item_sizes DemoMore.items).
Proof.
  apply (size_is_total_and_length_of_flatten DemoMore.items DemoMore.vectors).
  - discriminate.
  - exact respects_demo_vectors.
Defined.

Lemma flatten_reads_registered_keys_only_witness :
  flatten (FlattenArrays_init DemoMore.items) DemoMore.vectors =
  flatten (FlattenArrays_init DemoMore.items) DemoMore.vectors_and_more.
Proof.
  apply (flatten_reads_registered_keys_only DemoMore.items).
  intros k s Hin.
  repeat (apply elem_of_cons in Hin as [[= -> ->]|Hin]; [reflexivity|]).
  by apply not_elem_of_nil in Hin.
Defined.

Lemma flatten_missing_key_raises_KeyError_witness :
  flatten (FlattenArrays_init ([("a", [2])] ++ ("b", []) :: []))
          DemoMore.only_a = Raise KeyError.
Proof.
  apply (flatten_missing_key_raises_KeyError [("a", [2])] "b" [] []).
  - apply Forall_cons_2; [|apply Forall_nil_2].
    eexists. split; reflexivity.
  - reflexivity.
Defined.

Lemma unflatten_ignores_surplus_elements_witness :
  unflatten (FlattenArrays_init DemoMore.items)
    (PyArr (NdArray
              [length (flat_data DemoMore.vectors DemoMore.items ++ [5; 6]%Z)]
              (flat_data DemoMore.vectors DemoMore.items ++ [5; 6]%Z))) None =
  unflatten (FlattenArrays_init DemoMore.items)
    (PyArr (NdArray [length (flat_data DemoMore.vectors DemoMore.items)]
                    (flat_data DemoMore.vectors DemoMore.items))) None.
Proof.
  apply (unflatten_ignores_surplus_elements DemoMore.items DemoMore.vectors).
  exact respects_demo_vectors.
Defined.

Lemma unflatten_flatten2d_roundtrip_witness :
  exists M out,
    flatten2d 0%Z (FlattenArrays_init DemoMore.items) DemoMore.blocks = Ok M /\
    unflatten2d (FlattenArrays_init DemoMore.items) (PyArr M) None = Ok out /\
    forall k s, (k, s) ∈ DemoMore.items ->
      exists v w, DemoMore.blocks !! k = Some v /\ out !! k = Some w /\
                  np_array_equal w v /\
                  (s = [] -> exists a, w = PyScalar a).
Proof.
  apply (unflatten_flatten2d_roundtrip 0%Z DemoMore.items DemoMore.blocks).
  - apply (bool_decide_unpack _). vm_compute. exact I.
  - exact respects2d_demo_blocks.
Defined.

Lemma flatten2d_is_block_diagonal_witness :
  let items := [("a", [2])] ++ ("b", []) :: [] in
  let off := sum_list (item_sizes [("a", [2])]) in
  exists M,
    flatten2d 0%Z (FlattenArrays_init items) DemoMore.blocks = Ok M /\
    nd_shape M = [sum_list (item_sizes items); sum_list (item_sizes items)] /\
    entry2d M (off + 0) 1 =
      if decide (off <= 1 < off + np_prod [])
      then np_ravel (PyScalar 9%Z) !! (0 * np_prod [] + (1 - off))
      else Some 0%Z.
Proof.
  apply (flatten2d_is_block_diagonal 0%Z [("a", [2])] "b" [] []
           DemoMore.blocks (PyScalar 9%Z) 0 1).
  - exact respects2d_demo_blocks.
  - reflexivity.
  - simpl. lia.
  - simpl. lia.
Defined.

Lemma prod_of_concatenation_witness :
  prod Nat.mul ([2; 3] ++ [4]) [1] =
    (let* p := prod Nat.mul [2; 3] [1] in
     let* q := prod Nat.mul [4] [1] in Ok (p * q)) /\
  prod Nat.mul (5 :: [2; 3]) [] = prod Nat.mul [2; 3] [5] /\
  prod Nat.mul ([] : list nat) [] = Raise TypeError.
Proof.
  apply (prod_of_concatenation Nat.mul 1 Nat.mul_assoc Nat.mul_1_l
                               Nat.mul_1_r [2; 3] [4] 5).
Defined.

Lemma propagate_uncertainty_rejects_odd_rank_witness :
  propagate_uncertainty 0%Z Z.add Z.mul DemoOpt.vector_cov Demo.bad_jac =
  Raise AssertionError.
Proof.
  apply (propagate_uncertainty_rejects_odd_rank 0%Z Z.add Z.mul).
  reflexivity.
Defined.

Lemma propagate_uncertainty_returns_det_shape_witness :
  exists data,
    propagate_uncertainty 0%Z Z.add Z.mul (PyArr (NdArray [2; 2] Demo.cov))
                          DemoOpt.jac = Ok (NdArray ([1] ++ [1]) data) /\
    length data = np_prod [1] * np_prod [1].
Proof.
  apply (propagate_uncertainty_returns_det_shape 0%Z Z.add Z.mul
           (PyArr (NdArray [2; 2] Demo.cov)) DemoOpt.jac [1] [2]);
    reflexivity.
Defined.

Lemma inv_beta_suffstats_without_warning_witness :
  exists a b,
    inv_beta_suffstats Demo.is_neg Demo.of_Q Z.opp Z.add Z.sub Z.div Z.max
      Demo.special Demo.special Demo.constant_one DemoOpt.solve_still
      (PyScalar 0%Z) (PyScalar 0%Z) = Ok ([], (a, b)) /\
    np_ravel a = map fst [(1%Z, 1%Z)] /\
    np_ravel b = map snd [(1%Z, 1%Z)] /\
    np_shape a = np_shape (PyScalar 0%Z) /\
    np_shape b = np_shape (PyScalar 0%Z).
Proof.
  apply (inv_beta_suffstats_without_warning
           Demo.is_neg Demo.of_Q Z.opp Z.add Z.sub Z.div Z.max
           Demo.special Demo.special Demo.constant_one DemoOpt.solve_still
           (PyScalar 0%Z) (PyScalar 0%Z) [(1%Z, 1%Z)]).
  - reflexivity.
  - reflexivity.
  - apply Forall_cons_2; [by split|apply Forall_nil_2].
Defined.

Lemma inv_beta_suffstats_rejects_unequal_sizes_witness :
  inv_beta_suffstats Demo.is_neg Demo.of_Q Z.opp Z.add Z.sub Z.div Z.max
    Demo.special Demo.special Demo.constant_one DemoOpt.solve_still
    (PyScalar 0%Z) (PyArr (NdArray [2] [0; 0]%Z)) = Raise ValueError.
Proof.
  apply (inv_beta_suffstats_rejects_unequal_sizes
           Demo.is_neg Demo.of_Q Z.opp Z.add Z.sub Z.div Z.max
           Demo.special Demo.special Demo.constant_one DemoOpt.solve_still).
  discriminate.
Defined.

Lemma bounds_follow_the_flattened_vector_witness :
  exists bs,
    OptFactor_bounds DemoOpt.kwargs (Some DemoOpt.bounds) =
      Ok (BoundsList bs) /\
    fa_size (FlattenArrays_init DemoOpt.kwargs) = Ok (length bs) /\
    forall i k s i0 i1 p,
      DemoOpt.kwargs !! i = Some (k, s) ->
      inds (FlattenArrays_init DemoOpt.kwargs) !! i = Some (i0, i1) ->
      i0 <= p < i1 ->
      bs !! p = Some (DemoOpt.bound_of k).
Proof.
  apply (bounds_follow_the_flattened_vector DemoOpt.kwargs DemoOpt.bounds
                                            DemoOpt.bound_of).
  - discriminate.
  - intros k s Hin.
    repeat (apply elem_of_cons in Hin as [[= -> ->]|Hin]; [reflexivity|]).
    by apply not_elem_of_nil in Hin.
Defined.

Lemma bounds_count_one_entry_per_pair_and_element_witness :
  length [(0, 5)%Z; (0, 5)%Z; (-1, 1)%Z] =
  sum_list (map (fun ks => length (default [] (DemoOpt.bounds !! ks.1))
                           * np_prod ks.2)
                DemoOpt.kwargs).
Proof.
  apply (bounds_count_one_entry_per_pair_and_element DemoOpt.kwargs
           DemoOpt.bounds [(0, 5)%Z; (0, 5)%Z; (-1, 1)%Z]).
  reflexivity.
Defined.

Lemma from_approx_splits_free_and_fixed_witness :
  exists opt b,
    from_approx DemoOpt.model_dist DemoOpt.is_fixed DemoOpt.mean DemoOpt.shape
                DemoOpt.support ["a"; "b"; "c"] = Ok (opt, b, (-1)%Z) /\
    free_vars opt =
      filter (fun v => DemoOpt.is_fixed (DemoOpt.model_dist v) = false)
             ["a"; "b"; "c"] /\
    fa_items (param_shapes opt) =
      map (fun v => (v, DemoOpt.shape (DemoOpt.model_dist v)))
          (free_vars opt) /\
    (forall v,
       fixed_kws opt !! v =
       if decide (v ∈ ["a"; "b"; "c"] /\
                  DemoOpt.is_fixed (DemoOpt.model_dist v) = true)
       then Some (DemoOpt.mean (DemoOpt.model_dist v)) else None) /\
    match b with
    | BoundsNone => False
    | BoundsDict d => d = ∅ /\ free_vars opt = []
    | BoundsList l =>
        free_vars opt <> [] /\
        l = concat
              (map (fun v =>
                      concat
                        (map (replicate
                                (np_prod
                                   (DemoOpt.shape (DemoOpt.model_dist v))))
                             (DemoOpt.support (DemoOpt.model_dist v))))
                   (free_vars opt))
    end.
Proof.
  apply (from_approx_splits_free_and_fixed DemoOpt.model_dist DemoOpt.is_fixed
           DemoOpt.mean DemoOpt.shape DemoOpt.support ["a"; "b"; "c"]).
  apply (bool_decide_unpack _). vm_compute. exact I.
Defined.

Lemma get_random_start_draws_only_for_missing_witness :
  (get_random_start Demo.sample DemoOpt.opt DemoOpt.start 0).1 !! "b" =
  Some (PyScalar 9%Z).
Proof.
  apply (get_random_start_draws_only_for_missing
           Demo.sample DemoOpt.opt DemoOpt.start 0 "b").
  - apply list_elem_of_further, list_elem_of_here.
  - reflexivity.
Defined.


Lemma from_approx_all_fixed_cannot_be_maximised_witness :
  exists opt,
    from_approx DemoOpt.model_dist DemoOpt.is_fixed DemoOpt.mean DemoOpt.shape
                DemoOpt.support ["c"] = Ok (opt, BoundsDict ∅, (-1)%Z) /\
    forall st (h : heap Z nat),
      maximise Z.opp Demo.sample DemoOpt.minimize opt st h =
      (Raise ValueError,
       {| arrays_dict_of := arrays_dict_of h; sign_of := (-1)%Z;
          rng_of := rng_of h |}).
Proof.
  apply (from_approx_all_fixed_cannot_be_maximised
           DemoOpt.model_dist DemoOpt.is_fixed DemoOpt.mean DemoOpt.shape
           DemoOpt.support Z.opp Demo.sample DemoOpt.minimize ["c"]).
  apply Forall_cons_2; [reflexivity|apply Forall_nil_2].
Defined.

Lemma run_records_every_sweep_and_nothing_else_witness :
  is_Some ((run Demo.laplace Demo.graph Demo.two_sweeps 0 None ∅ 0).1.2
             !! (1, "g")).
Proof.
  apply (run_records_every_sweep_and_nothing_else
           Demo.laplace Demo.graph Demo.two_sweeps 0 None ∅ 0 1 "g").
  - reflexivity.
  - simpl. lia.
  - apply list_elem_of_further, list_elem_of_here.
Defined.

Lemma flatten_unflatten_roundtrip_witness :
  exists X,
    unflatten (FlattenArrays_init DemoMore.items)
              (PyArr (NdArray [length [1; 2; 9]%Z] [1; 2; 9]%Z)) None = Ok X /\
    flatten (FlattenArrays_init DemoMore.items) X =
      Ok (NdArray [length [1; 2; 9]%Z] [1; 2; 9]%Z) /\
    (forall k, is_Some (X !! k) <-> k ∈ map fst DemoMore.items) /\
    (forall k s v, (k, s) ∈ DemoMore.items -> X !! k = Some v ->
                   np_shape v = s).
Proof.
  apply (flatten_unflatten_roundtrip DemoMore.items [1; 2; 9]%Z).
  - discriminate.
  - apply (bool_decide_unpack _). vm_compute. exact I.
  - reflexivity.
Defined.


